(** * A shallow embedding of [kidney-train.py]

    The script builds a U-Net with TensorFlow 1.x, trains it against an
    overlap score and drives a session loop.  The development below models

    - the numeric part ([IOU_], [sparse_iou], [make_train_op]) over flat,
      row-major tensors whose element type is an abstract scalar carrier,
    - the graph-construction part ([conv_conv_pool], [upsample_concat],
      [upsampling_2D], [make_unet], the activation choice of [main]) as an
      abstract syntax of graph nodes together with the static shape inference
      that TensorFlow runs when an operator is created,
    - the input pipeline ([image_augmentation], [get_image_mask]) over
      height/width/channel nested lists with the random draws made explicit,
    - the session part of [main] (checkpoint directory handling and the
      [try]/[finally] training block) in a small exception-and-trace monad
      whose library calls are answered by an environment. *)

From Stdlib Require Import Ascii String DecimalString.
From Stdlib Require Import ZArith QArith List Bool Lia Arith Lqa.
Import ListNotations.

Close Scope Q_scope.
Open Scope nat_scope.

Set Implicit Arguments.

(* ===================================================================== *)
(** * Part I.  Definitions                                                *)
(* ===================================================================== *)

(** ** Option monad used for Python code that may raise while it builds
       or evaluates a tensor expression. *)

Definition obind {A B : Type} (m : option A) (k : A -> option B) : option B :=
  match m with
  | Some a => k a
  | None => None
  end.

Notation "x <-? m ;; k" := (obind m (fun x => k))
  (at level 61, m at next level, right associativity).

Fixpoint otraverse {A B : Type} (f : A -> option B) (l : list A)
  : option (list B) :=
  match l with
  | [] => Some []
  | a :: l' =>
      b <-? f a ;;
      bs <-? otraverse f l' ;;
      Some (b :: bs)
  end.

(** ** Scalars

    The script computes in [float32].  The overlap score only uses the
    operations listed here, so it is stated over any carrier that provides
    them; exact rationals give an executable instance. *)

Class Scalar (T : Type) : Type := {
  s_const : Z -> T;          (* a Python int used as a float constant *)
  s_eps : T;                 (* the literal 1e-7 *)
  s_add : T -> T -> T;
  s_sub : T -> T -> T;
  s_mul : T -> T -> T;
  s_div : T -> T -> T;
  s_neg : T -> T;
  s_eqb : T -> T -> bool
}.

#[export] Instance Scalar_Q : Scalar Q := {
  s_const := inject_Z;
  s_eps := (1 # 10000000)%Q;
  s_add := Qplus;
  s_sub := Qminus;
  s_mul := Qmult;
  s_div := Qdiv;
  s_neg := Qopp;
  s_eqb := Qeq_bool
}.

(** ** Flat tensors *)

Record tensor (E : Type) : Type := mk_tensor {
  shape : list nat;
  data : list E        (* row-major *)
}.

Section TensorOps.
Context {T : Type} `{Scalar T}.

Definition zip_with {A B C : Type} (f : A -> B -> C)
           (l1 : list A) (l2 : list B) : list C :=
  map (fun p => f (fst p) (snd p)) (combine l1 l2).

(** [rows n k l]: the [n] consecutive blocks of [k] elements of [l]. *)
Definition rows {A : Type} (n k : nat) (l : list A) : list (list A) :=
  map (fun i => firstn k (skipn (i * k) l)) (seq 0 n).

(** [tf.reshape(t, [-1, k])]: the data is kept, the leading dimension is
    inferred from the number of elements. *)
Definition reshape_rows {E : Type} (k : nat) (t : tensor E) : tensor E :=
  mk_tensor [length (data t) / k; k] (data t).

(** [tf.cast] and every other element-wise unary operator, including the
    broadcast of a Python scalar against a tensor. *)
Definition t_map {A B : Type} (f : A -> B) (t : tensor A) : tensor B :=
  mk_tensor (shape t) (map f (data t)).

(** Element-wise binary operators on two tensors of one shape. *)
Definition t_zip {A B C : Type} (f : A -> B -> C)
           (a : tensor A) (b : tensor B) : tensor C :=
  mk_tensor (shape a) (zip_with f (data a) (data b)).

Definition sum_list (l : list T) : T :=
  fold_left s_add l (s_const 0).

(** [tf.reduce_sum(t, axis=1)] of a rank-2 tensor.  [IOU_] only applies it
    to the result of [reshape_rows]; other ranks are left empty. *)
Definition reduce_sum_axis1 (t : tensor T) : tensor T :=
  match shape t with
  | [n; k] => mk_tensor [n] (map sum_list (rows n k (data t)))
  | _ => mk_tensor [] []
  end.

Definition mean_list (l : list T) : T :=
  s_div (sum_list l) (s_const (Z.of_nat (length l))).

(** [tf.reduce_mean(t)] over all elements. *)
Definition reduce_mean (t : tensor T) : T := mean_list (data t).

(** [t[:, :, :, cc]] on a rank-4 tensor; any other rank is an
    [IndexError]/[ValueError] in the source. *)
Definition slice_channel (cc : nat) (t : tensor T) : option (tensor T) :=
  match shape t with
  | [n; h; w; c] =>
      if cc <? c then
        Some (mk_tensor [n; h; w]
                (flat_map (fun px => match nth_error px cc with
                                     | Some v => [v]
                                     | None => []
                                     end)
                          (rows (length (data t) / c) c (data t))))
      else None
  | _ => None
  end.

(** [tf.equal(t, cc)] with [cc] a Python int. *)
Definition t_equal (t : tensor T) (cc : nat) : tensor bool :=
  t_map (fun v => s_eqb v (s_const (Z.of_nat cc))) t.

Definition bool_to_float (b : bool) : T :=
  if b then s_const 1 else s_const 0.

(** *** [IOU_] (source lines 240-264) *)
Definition IOU_ {E : Type} (to_float : E -> T)
           (y_pred : tensor T) (y_true : tensor E) : option T :=
  match firstn 2 (skipn 1 (shape y_pred)) with
  | [H; W] =>
      let pred_flat := reshape_rows (H * W) y_pred in
      let true_flat := reshape_rows (H * W) y_true in
      let true_flat := t_map to_float true_flat in
      let intersection :=
        t_map (fun v => s_add v s_eps)
              (t_map (s_mul (s_const 2))
                     (reduce_sum_axis1 (t_zip s_mul pred_flat true_flat))) in
      let denominator :=
        t_map (fun v => s_add v s_eps)
              (t_zip s_add (reduce_sum_axis1 pred_flat)
                     (t_map (fun v => v) (reduce_sum_axis1 true_flat))) in
      Some (reduce_mean (t_zip s_div intersection denominator))
  | _ => None
  end.

(** *** [sparse_iou] (source lines 233-238) *)
Definition sparse_iou (y_pred y_true : tensor T) : option T :=
  match rev (shape y_pred) with
  | channels :: _ =>
      iou_ <-? otraverse
                 (fun cc =>
                    p <-? slice_channel cc y_pred ;;
                    IOU_ bool_to_float p (t_equal y_true cc))
                 (seq 0 channels) ;;
      Some (mean_list iou_)
  | [] => None
  end.

(** *** [make_train_op] (source lines 267-293)

    The returned operation is described by what it minimises and with
    which optimiser. *)
Record adam : Type := AdamOptimizer {
  adam_learning_rate : Q;
  adam_beta1 : Q;
  adam_beta2 : Q;
  adam_epsilon : Q
}.

Record train_op : Type := minimize {
  optim : adam;
  loss : T;
  increments_global_step : bool
}.

Definition make_train_op (y_pred y_true : tensor T)
           (learning_rate beta1 beta2 epsilon : Q) : option train_op :=
  iou <-? sparse_iou y_pred y_true ;;
  let loss := s_neg iou in
  let optim := AdamOptimizer learning_rate beta1 beta2 epsilon in
  Some (minimize optim loss true).

(** [tf.Print(x, ...)] passes its first argument through. *)
Definition tf_Print (x : T) : T := x.

(** The two operations of [main] that depend on the prediction and on the
    labels (source lines 391-396). *)
Definition main_ops (learning_rate : Q) (pred y : tensor T)
  : option (train_op * T) :=
  train_op <-? make_train_op pred y learning_rate (9 # 10)%Q (999 # 1000)%Q
                 (1 # 100000000)%Q ;;
  IOU_op <-? sparse_iou pred y ;;
  let IOU_op := tf_Print IOU_op in
  Some (train_op, IOU_op).

(** *** The overlap ratio in the words of the specification

    Intersection over union of two masks given as per-pixel weights:
    the area of the intersection is the sum of the products, the area of
    the union is the sum of both areas minus the intersection. *)
Definition area_intersection (p t : list T) : T :=
  sum_list (zip_with s_mul p t).

Definition area_union (p t : list T) : T :=
  s_sub (s_add (sum_list p) (sum_list t)) (area_intersection p t).

Definition iou_ratio (p t : list T) : T :=
  s_div (area_intersection p t) (area_union p t).

Definition spec_mean_iou (k : nat) (y_pred y_true : tensor T) : T :=
  let n := length (data y_pred) / k in
  mean_list (zip_with iou_ratio (rows n k (data y_pred))
                      (rows n k (data y_true))).

(** What [IOU_] computes for one sample of the batch. *)
Definition overlap_score (p t : list T) : T :=
  s_div (s_add (s_mul (s_const 2) (area_intersection p t)) s_eps)
        (s_add (s_add (sum_list p) (sum_list t)) s_eps).

End TensorOps.

(** *** The score per class, written out

    The pixels of channel [cc] of a row-major (N, H, W, C) tensor, and the
    score of class [cc]: the mean over the batch of the per-sample score of
    that channel against the pixels labelled [cc]. *)
Definition channel_pixels {T : Type} (cc c : nat) (l : list T) : list T :=
  flat_map (fun px => match nth_error px cc with
                      | Some v => [v]
                      | None => []
                      end)
           (rows (length l / c) c l).

Definition class_score {T : Type} `{Scalar T} (n h w c : nat)
           (y_pred y_true : tensor T) (cc : nat) : T :=
  mean_list
    (zip_with overlap_score
       (rows n (h * w) (channel_pixels cc c (data y_pred)))
       (rows n (h * w)
             (map (fun v => bool_to_float (s_eqb v (s_const (Z.of_nat cc))))
                  (data y_true)))).

(** ** Graph construction

    Tensors of the network are nodes of a data-flow graph.  TensorFlow infers
    the static shape of a node when the node is created and raises when the
    shapes of its inputs do not fit, so every constructor of the script is a
    partial function.  The batch dimension is [None] throughout and is left
    out: a static shape is (height, width, channels). *)

Definition str (n : nat) : string := NilEmpty.string_of_uint (Nat.to_uint n).

Inductive activation_fn : Type :=
| tf_nn_relu
| tf_nn_sigmoid
| tf_nn_softmax.

Inductive padding : Type :=
| pad_valid
| pad_same.

Inductive dtype : Type :=
| tf_float32
| tf_bool.

Inductive node : Type :=
| Placeholder (d : dtype) (static : option (Z * Z * Z)) (name : string)
| DivScalar (x : node) (c : Q)
| SubScalar (x : node) (c : Q)
| Conv2D (x : node) (filters : Z) (kernel_size : Z * Z)
         (activation : option activation_fn) (pad : padding) (name : string)
| BatchNormalization (x : node) (training : node) (name : string)
| Activate (f : activation_fn) (x : node) (name : string)
| MaxPooling2D (x : node) (pool_size strides : Z * Z) (name : string)
| ResizeNearestNeighbor (x : node) (size : Z * Z) (name : string)
| ConcatLast (a b : node) (name : string).

(** Static shape inference; [None] is the error raised at construction. *)
Fixpoint get_shape (t : node) : option (Z * Z * Z) :=
  match t with
  | Placeholder _ static _ =>
      match static with
      | Some (h, w, c) =>
          if ((0 <=? h) && (0 <=? w) && (0 <=? c))%Z then Some (h, w, c)
          else None
      | None => None
      end
  | DivScalar x _ => get_shape x
  | SubScalar x _ => get_shape x
  | Conv2D x filters (kh, kw) _ pad _ =>
      match get_shape x with
      | Some (h, w, _) =>
          if (filters <? 0)%Z then None
          else match pad with
               | pad_same => Some (h, w, filters)
               | pad_valid =>
                   if ((kh <=? h) && (kw <=? w))%Z
                   then Some (h - kh + 1, w - kw + 1, filters)%Z
                   else None
               end
      | None => None
      end
  | BatchNormalization x _ _ => get_shape x
  | Activate _ x _ => get_shape x
  | MaxPooling2D x (ph, pw) (sh, sw) _ =>
      match get_shape x with
      | Some (h, w, c) =>
          if ((ph <=? h) && (pw <=? w))%Z
          then Some ((h - ph) / sh + 1, (w - pw) / sw + 1, c)%Z
          else None
      | None => None
      end
  | ResizeNearestNeighbor x (th, tw) _ =>
      match get_shape x with
      | Some (_, _, c) => Some (th, tw, c)
      | None => None
      end
  | ConcatLast a b _ =>
      match get_shape a, get_shape b with
      | Some (ha, wa, ca), Some (hb, wb, cb) =>
          if ((ha =? hb) && (wa =? wb))%Z then Some (ha, wa, ca + cb)%Z
          else None
      | _, _ => None
      end
  end.

(** Creating an operator succeeds when its shape can be inferred. *)
Definition tf_op (t : node) : option node :=
  match get_shape t with
  | Some _ => Some t
  | None => None
  end.

Definition tf_layers_conv2d (x : node) (filters : Z) (kernel_size : Z * Z)
           (activation : option activation_fn) (pad : padding) (name : string)
  : option node :=
  tf_op (Conv2D x filters kernel_size activation pad name).

Definition tf_layers_batch_normalization (x training : node) (name : string)
  : option node :=
  tf_op (BatchNormalization x training name).

Definition tf_layers_max_pooling2d (x : node) (pool_size strides : Z * Z)
           (name : string) : option node :=
  tf_op (MaxPooling2D x pool_size strides name).

Definition tf_image_resize_nearest_neighbor (x : node) (size : Z * Z)
           (name : string) : option node :=
  tf_op (ResizeNearestNeighbor x size name).

Definition tf_concat (a b : node) (name : string) : option node :=
  tf_op (ConcatLast a b name).

Definition call_activation (f : activation_fn) (x : node) (name : string)
  : option node :=
  tf_op (Activate f x name).

(** *** [conv_conv_pool] (source lines 124-152) *)

(** What the function returns: [net] alone, or the pair [(net, pool)]. *)
Inductive block : Type :=
| Net (net : node)
| NetPool (net pool : node).

(** One pass of the [for i, F in enumerate(n_filters)] loop body. *)
Definition conv_bn_act (training : node) (scope : string) (name : nat)
           (activation : activation_fn) (net : node) (i : nat) (F : Z)
  : option node :=
  net <-? tf_layers_conv2d net F (3, 3)%Z None pad_same
            (scope ++ "/conv_" ++ str (i + 1))%string ;;
  net <-? tf_layers_batch_normalization net training
            (scope ++ "/bn_" ++ str (i + 1))%string ;;
  call_activation activation net
    (scope ++ "/relu" ++ str name ++ "_" ++ str (i + 1))%string.

Fixpoint conv_loop (training : node) (scope : string) (name : nat)
         (activation : activation_fn) (net : node) (i : nat)
         (n_filters : list Z) : option node :=
  match n_filters with
  | [] => Some net
  | F :: rest =>
      net <-? conv_bn_act training scope name activation net i F ;;
      conv_loop training scope name activation net (S i) rest
  end.

Definition conv_conv_pool (input_ : node) (n_filters : list Z)
           (training : node) (name : nat) (pool : bool)
           (activation : activation_fn) : option block :=
  let net := input_ in
  let scope := ("layer" ++ str name)%string in
  net <-? conv_loop training scope name activation net 0 n_filters ;;
  if negb pool then Some (Net net)
  else
    pool <-? tf_layers_max_pooling2d net (2, 2)%Z (2, 2)%Z
               (scope ++ "/pool_" ++ str name)%string ;;
    Some (NetPool net pool).

(** Tuple unpacking [conv, pool = ...] and the plain assignment. *)
Definition unpack_pair (b : block) : option (node * node) :=
  match b with
  | NetPool net pool => Some (net, pool)
  | Net _ => None
  end.

Definition as_tensor (b : block) : option node :=
  match b with
  | Net net => Some net
  | NetPool _ _ => None
  end.

(** *** [upsampling_2D] (source lines 171-189) *)
Definition upsampling_2D (tensor : node) (name : nat) (size : Z * Z)
  : option node :=
  match get_shape tensor with
  | Some (H, W, _) =>
      let '(H_multi, W_multi) := size in
      let target_H := (H * H_multi)%Z in
      let target_W := (W * W_multi)%Z in
      tf_image_resize_nearest_neighbor tensor (target_H, target_W)
        ("upsample_" ++ str name)%string
  | None => None
  end.

(** *** [upsample_concat] (source lines 155-168) *)
Definition upsample_concat (inputA input_B : node) (name : nat)
  : option node :=
  upsample <-? upsampling_2D inputA name (2, 2)%Z ;;
  tf_concat upsample input_B ("concat_" ++ str name)%string.

(** *** The blocks of the network, written out as graph terms

    These are the shapes of sub-graph the specification speaks of; the
    properties below compare what the constructors build with them. *)

(** conv2d, then batch normalisation, then the activation. *)
Definition conv_bn_act_term (training : node) (scope : string) (name : nat)
           (activation : activation_fn) (net : node) (i : nat) (F : Z)
  : node :=
  Activate activation
    (BatchNormalization
       (Conv2D net F (3, 3)%Z None pad_same
               (scope ++ "/conv_" ++ str (i + 1))%string)
       training (scope ++ "/bn_" ++ str (i + 1))%string)
    (scope ++ "/relu" ++ str name ++ "_" ++ str (i + 1))%string.

Fixpoint layer_stack (training : node) (scope : string) (name : nat)
         (activation : activation_fn) (net : node) (i : nat)
         (n_filters : list Z) : node :=
  match n_filters with
  | [] => net
  | F :: rest =>
      layer_stack training scope name activation
        (conv_bn_act_term training scope name activation net i F)
        (S i) rest
  end.

Definition conv_block (training : node) (name : nat)
           (activation : activation_fn) (net : node) (n_filters : list Z)
  : node :=
  layer_stack training ("layer" ++ str name)%string name activation net 0
              n_filters.

(** 2x2 max-pooling with stride 2. *)
Definition pooled (name : nat) (net : node) : node :=
  MaxPooling2D net (2, 2)%Z (2, 2)%Z
               (("layer" ++ str name) ++ "/pool_" ++ str name)%string.

(** Nearest-neighbour upsampling of a map of height [h] and width [w] by a
    factor of two, concatenated with [skip] along the channel axis. *)
Definition upsampled (name : nat) (low : node) (h w : Z) : node :=
  ResizeNearestNeighbor low (h * 2, w * 2)%Z ("upsample_" ++ str name)%string.

Definition skip_concat (name : nat) (low skip : node) (h w : Z) : node :=
  ConcatLast (upsampled name low h w) skip ("concat_" ++ str name)%string.

Notation "' pat <-? m ;; k" :=
  (obind m (fun x => match x with pat => k end))
  (at level 61, pat pattern, m at next level, right associativity).

(** *** [make_unet] (source lines 192-230) *)
Definition make_unet (X training : node) (activation : activation_fn)
           (classes : Z) : option node :=
  net <-? tf_op (DivScalar X (255 # 2)%Q) ;;
  net <-? tf_op (SubScalar net 1%Q) ;;
  net <-? tf_layers_conv2d net 3 (1, 1)%Z None pad_valid
            "color_space_adjust" ;;
  '(conv1, pool1) <-?
     (b <-? conv_conv_pool net [8; 8]%Z training 1 true tf_nn_relu ;;
      unpack_pair b) ;;
  '(conv2, pool2) <-?
     (b <-? conv_conv_pool pool1 [16; 16]%Z training 2 true tf_nn_relu ;;
      unpack_pair b) ;;
  '(conv3, pool3) <-?
     (b <-? conv_conv_pool pool2 [32; 32]%Z training 3 true tf_nn_relu ;;
      unpack_pair b) ;;
  '(conv4, pool4) <-?
     (b <-? conv_conv_pool pool3 [64; 64]%Z training 4 true tf_nn_relu ;;
      unpack_pair b) ;;
  conv5 <-?
     (b <-? conv_conv_pool pool4 [128; 128]%Z training 5 false tf_nn_relu ;;
      as_tensor b) ;;

  up6 <-? upsample_concat conv5 conv4 6 ;;
  conv6 <-?
     (b <-? conv_conv_pool up6 [64; 64]%Z training 6 false tf_nn_relu ;;
      as_tensor b) ;;

  up7 <-? upsample_concat conv6 conv3 7 ;;
  conv7 <-?
     (b <-? conv_conv_pool up7 [32; 32]%Z training 7 false tf_nn_relu ;;
      as_tensor b) ;;

  up8 <-? upsample_concat conv7 conv2 8 ;;
  conv8 <-?
     (b <-? conv_conv_pool up8 [16; 16]%Z training 8 false tf_nn_relu ;;
      as_tensor b) ;;

  up9 <-? upsample_concat conv8 conv1 9 ;;
  conv9 <-?
     (b <-? conv_conv_pool up9 [8; 8]%Z training 9 false tf_nn_relu ;;
      as_tensor b) ;;

  tf_layers_conv2d conv9 classes (1, 1)%Z (Some activation) pad_same "final".

(** *** Command-line flags ([read_flags], source lines 296-356) *)
Record flags_t : Type := {
  data_root : string;
  train : string;
  test : string;
  epochs : Z;
  learning_rate : Q;
  batch_size : Z;
  channels : Z;
  height : Z;
  w : Z;
  logdir : string;
  ckdir : string
}.

Definition default_flags : flags_t := {|
  data_root := "../data/data_256_subsample_4x/";
  train := "./train.csv";
  test := "./test.csv";
  epochs := 8;
  learning_rate := (1 # 1000)%Q;
  batch_size := 16;
  channels := 5;
  height := 256;
  w := 256;
  logdir := "logdir";
  ckdir := "models"
|}.

(** *** The graph part of [main] (source lines 368-380) *)
Definition main_activation (flags : flags_t) : activation_fn :=
  if (channels flags >? 1)%Z then tf_nn_softmax else tf_nn_sigmoid.

Definition main_X (flags : flags_t) : node :=
  Placeholder tf_float32 (Some (height flags, w flags, 3%Z)) "X".

Definition main_mode : node := Placeholder tf_bool None "mode".

Definition main_pred (flags : flags_t) : option node :=
  X <-? tf_op (main_X flags) ;;
  let mode := main_mode in
  let activation := main_activation flags in
  make_unet X mode activation (channels flags).

(** ** Input pipeline

    An image is a height x width x channels nested list.  The random
    operators of [tf.image] draw from a generator; the draws are passed in
    explicitly so that the functions are deterministic. *)

Fixpoint zip_strict {A B C : Type} (f : A -> B -> option C)
         (l1 : list A) (l2 : list B) : option (list C) :=
  match l1, l2 with
  | [], [] => Some []
  | a :: l1', b :: l2' =>
      c <-? f a b ;;
      cs <-? zip_strict f l1' l2' ;;
      Some (c :: cs)
  | _, _ => None
  end.

Record draws : Type := {
  coin_left_right : bool;
  coin_up_down : bool;
  brightness_delta : Q;
  hue_delta : Q
}.

Section Augmentation.
Variable P : Type.                       (* one float32 component *)

Definition image_t : Type := list (list (list P)).

(** The two photometric adjustments are TensorFlow kernels on float
    images; they are kept abstract. *)
Variable adjust_brightness : image_t -> Q -> image_t.
Variable adjust_hue : image_t -> Q -> image_t.

(** [tf.concat([a, b], axis=-1)] of two rank-3 tensors: heights and widths
    have to agree. *)
Definition concat_last (a b : image_t) : option image_t :=
  zip_strict (zip_strict (fun p q => Some (p ++ q))) a b.

Definition flip_left_right (t : image_t) : image_t := map (@rev (list P)) t.
Definition flip_up_down (t : image_t) : image_t := rev t.

(** [tf.image.random_flip_left_right] and [random_flip_up_down] on a
    rank-3 tensor; [coin] is the draw.  The operators refuse, when the graph
    is built, a tensor one of whose dimensions is known to be 0; that check
    is not part of the model, which is meant for the non-empty images that
    [get_image_mask] decodes. *)
Definition random_flip_left_right (coin : bool) (t : image_t) : image_t :=
  if coin then flip_left_right t else t.

Definition random_flip_up_down (coin : bool) (t : image_t) : image_t :=
  if coin then flip_up_down t else t.

(** [t[:, :, :-1]] and [t[:, :, -1:]]. *)
Definition all_but_last_channel (t : image_t) : image_t :=
  map (map (@removelast P)) t.

Definition last_channel (t : image_t) : image_t :=
  map (map (fun px => skipn (length px - 1) px)) t.

(** [delta] is the value drawn uniformly from [-max_delta, max_delta).
    [tf.image.random_hue] works on RGB images and refuses a tensor whose last
    dimension is not 3; that check is not part of the model either:
    [get_image_mask] decodes the image with three channels, and a result of
    [image_augmentation] below stands for a run of the source only on such
    an image. *)
Definition random_brightness (t : image_t) (max_delta delta : Q) : image_t :=
  adjust_brightness t delta.

Definition random_hue (t : image_t) (max_delta delta : Q) : image_t :=
  adjust_hue t delta.

(** *** [image_augmentation] (source lines 38-65) *)
Definition image_augmentation (image mask : image_t) (d : draws)
  : option (image_t * image_t) :=
  concat_image <-? concat_last image mask ;;

  let maybe_flipped := random_flip_left_right (coin_left_right d)
                                              concat_image in
  let maybe_flipped := random_flip_up_down (coin_up_down d)
                                           concat_image in

  let image := all_but_last_channel maybe_flipped in
  let mask := last_channel maybe_flipped in

  let image := random_brightness image (7 # 10)%Q (brightness_delta d) in
  let image := random_hue image (3 # 10)%Q (hue_delta d) in

  Some (image, mask).

(** Shape of a well-formed rank-3 tensor. *)
Definition has_shape (h w c : nat) (t : image_t) : Prop :=
  length t = h /\
  Forall (fun row => length row = w /\
                     Forall (fun px => length px = c) row) t.

(** *** [get_image_mask] (source lines 69-115)

    The file system and the decoder are outside the script: a path is
    mapped to its bytes by [read_file], bytes are decoded to [uint8]
    pixels by [img_decoder] with the requested number of channels, and
    [split_fields] is the tokenizer of [tf.decode_csv]. *)
Variable file : Type.
Variable U : Type.                       (* one uint8 component *)
Variable read_file : string -> option file.
Variable img_decoder : file -> nat -> option (list (list (list U))).
Variable to_float32 : U -> P.
Variable split_fields : string -> list string.

Definition tf_cast (t : list (list (list U))) : image_t :=
  map (map (map to_float32)) t.

(** [tf.TextLineReader(skip_header_lines=n)]: the records of one pass
    over a file, and the record returned by the [k]-th read of the pass. *)
Definition text_line_records (skip_header_lines : nat)
           (lines : list string) : list string :=
  skipn skip_header_lines lines.

Definition text_reader_read (skip_header_lines : nat)
           (lines : list string) (k : nat) : option string :=
  nth_error (text_line_records skip_header_lines lines) k.

(** [tf.decode_csv(line, record_defaults)] for string columns: as many
    fields as defaults, an empty field takes the default. *)
Definition is_empty (s : string) : bool :=
  match s with
  | EmptyString => true
  | _ => false
  end.

Definition decode_csv (line : string) (record_defaults : list string)
  : option (list string) :=
  let fields := split_fields line in
  if length fields =? length record_defaults
  then Some (map (fun fd => if is_empty (fst fd) then snd fd else fst fd)
                 (combine fields record_defaults))
  else None.

Definition get_image_mask (lines : list string) (k : nat)
           (data_root : string) (augmentation : bool) (d : draws)
  : option (image_t * image_t) :=
  csv_content <-? text_reader_read 1 lines k ;;

  '(image_path, mask_path) <-?
     (fields <-? decode_csv csv_content [""; ""]%string ;;
      match fields with
      | [a; b] => Some (a, b)
      | _ => None
      end) ;;

  let image_path := (data_root ++ image_path)%string in
  let mask_path := (data_root ++ mask_path)%string in

  image_file <-? read_file image_path ;;
  mask_file <-? read_file mask_path ;;

  (* set_shape only refines the static shape; the pixels are unchanged *)
  image <-? img_decoder image_file 3 ;;
  let image := tf_cast image in

  mask <-? img_decoder mask_file 1 ;;
  let mask := tf_cast mask in

  if augmentation then image_augmentation image mask d
  else Some (image, mask).

(** [get_line_num] (source lines 117-122). *)
Definition get_line_num (lines : list string) : nat := length lines.

End Augmentation.

(** A tokenizer for CSV lines without quoted fields: the fields are the
    pieces between commas.  It instantiates [split_fields] in examples. *)
Fixpoint split_on_comma (s : string) : list string :=
  match s with
  | EmptyString => [EmptyString]
  | String c rest =>
      if Ascii.eqb c ","%char then EmptyString :: split_on_comma rest
      else match split_on_comma rest with
           | f :: fs => String c f :: fs
           | [] => [String c EmptyString]
           end
  end.

(** ** The session part of [main]

    Every call into the operating system or into TensorFlow is an event.
    An environment answers the queries and decides, from the history of the
    run, whether a call raises.  The trace records each call together with
    the exception it raised, if any. *)

Inductive exn : Type :=
| FileNotFoundError
| FileExistsError
| NotADirectoryError
| PermissionError
| OSError
| UnboundLocalError
| ValueError
| RuntimeError
| KeyboardInterrupt
| OpError.

(** [isinstance(e, OSError)] and [isinstance(e, FileNotFoundError)] for the
    Python 3 exception hierarchy. *)
Definition is_OSError (e : exn) : bool :=
  match e with
  | FileNotFoundError | FileExistsError | NotADirectoryError
  | PermissionError | OSError => true
  | _ => false
  end.

Definition is_FileNotFoundError (e : exn) : bool :=
  match e with
  | FileNotFoundError => true
  | _ => false
  end.

Inductive event : Type :=
| ev_Saver
| ev_path_exists (path : string)
| ev_checkpoint_exists (path : string)
| ev_latest_checkpoint (path : string)
| ev_print (text : string)
| ev_restore (checkpoint : string)
| ev_rmdir (path : string)
| ev_mkdir (path : string)
| ev_get_global_step
| ev_Coordinator
| ev_start_queue_runners
| ev_run_batch (training : bool)
| ev_run_train_step
| ev_run_eval
| ev_add_summary (training : bool) (step : option Z)
| ev_save (path : string)
| ev_request_stop
| ev_join.

Definition trace_t : Type := list (event * option exn).

Record env : Type := {
  path_exists : string -> bool;
  checkpoint_exists : string -> bool;
  latest_checkpoint : string -> option string;
  raises : trace_t -> event -> option exn
}.

(** Local variables of [main] that are assigned inside the [try] block. *)
Record state : Type := {
  trace : trace_t;
  coord : bool;           (* is [coord] bound? *)
  threads : bool          (* is [threads] bound? *)
}.

Definition initial_state : state :=
  {| trace := []; coord := false; threads := false |}.

Definition M (A : Type) : Type := env -> state -> (exn + A) * state.

Definition ret {A : Type} (a : A) : M A := fun _ s => (inr a, s).

Definition raise {A : Type} (e : exn) : M A := fun _ s => (inl e, s).

Definition mbind {A B : Type} (m : M A) (k : A -> M B) : M B :=
  fun en s =>
    match m en s with
    | (inr a, s') => k a en s'
    | (inl e, s') => (inl e, s')
    end.

Notation "x <~ m ;; k" := (mbind m (fun x => k))
  (at level 61, m at next level, right associativity).

Definition log (ev : event) (o : option exn) (s : state) : state :=
  {| trace := trace s ++ [(ev, o)]; coord := coord s; threads := threads s |}.

(** A library call that returns nothing of interest. *)
Definition call (ev : event) : M unit :=
  fun en s =>
    match raises en (trace s) ev with
    | Some e => (inl e, log ev (Some e) s)
    | None => (inr tt, log ev None s)
    end.

(** A library call whose answer is read from the environment. *)
Definition query {A : Type} (ev : event) (answer : env -> A) : M A :=
  _ <~ call ev ;; (fun en s => (inr (answer en), s)).

(** [try: body except c1: h1 except c2: h2 ...]: the first clause whose
    class matches handles the exception. *)
Fixpoint find_handler {A : Type} (e : exn)
         (handlers : list ((exn -> bool) * M A)) : option (M A) :=
  match handlers with
  | [] => None
  | (matches, h) :: rest =>
      if matches e then Some h else find_handler e rest
  end.

Definition try_except {A : Type} (body : M A)
           (handlers : list ((exn -> bool) * M A)) : M A :=
  fun en s =>
    match body en s with
    | (inr a, s') => (inr a, s')
    | (inl e, s') =>
        match find_handler e handlers with
        | Some h => h en s'
        | None => (inl e, s')
        end
    end.

(** [try: body finally: fin]: [fin] always runs; an exception of [fin]
    replaces the outcome of [body]. *)
Definition try_finally {A : Type} (body : M A) (fin : M unit) : M A :=
  fun en s =>
    match body en s with
    | (r, s') =>
        match fin en s' with
        | (inr _, s'') => (r, s'')
        | (inl e, s'') => (inl e, s'')
        end
    end.

Fixpoint for_each {A : Type} (l : list A) (body : A -> M unit) : M unit :=
  match l with
  | [] => ret tt
  | a :: l' => _ <~ body a ;; for_each l' body
  end.

(** Python's [range(start, stop, step)]. *)
Definition range_list (start stop step : Z) : list Z :=
  if (0 <? step)%Z then
    map (fun i => (start + Z.of_nat i * step)%Z)
        (seq 0 (Z.to_nat ((stop - start + step - 1) / step)))
  else if (step <? 0)%Z then
    map (fun i => (start + Z.of_nat i * step)%Z)
        (seq 0 (Z.to_nat ((start - stop - step - 1) / (- step))))
  else [].

Definition py_range (start stop step : Z) : M (list Z) :=
  if (step =? 0)%Z then raise ValueError else ret (range_list start stop step).

(** Binding and reading the two locals. *)
Definition bind_coord : M unit :=
  fun _ s => (inr tt, {| trace := trace s; coord := true;
                         threads := threads s |}).

Definition bind_threads : M unit :=
  fun _ s => (inr tt, {| trace := trace s; coord := coord s;
                         threads := true |}).

Definition read_coord : M unit :=
  fun _ s => if coord s then (inr tt, s) else (inl UnboundLocalError, s).

Definition read_threads : M unit :=
  fun _ s => if threads s then (inr tt, s) else (inl UnboundLocalError, s).

Definition tab : string := String (ascii_of_nat 9) EmptyString.

Definition checkpoint_path (flags : flags_t) : string :=
  (ckdir flags ++ "/model.ckpt")%string.

(** *** Checkpoint directory (source lines 428-441) *)
Definition main_checkpoint (flags : flags_t) : M unit :=
  _ <~ call ev_Saver ;;
  there <~ query (ev_path_exists (ckdir flags))
                 (fun en => path_exists en (ckdir flags)) ;;
  cond <~ (if there : bool
           then query (ev_checkpoint_exists (ckdir flags))
                      (fun en => checkpoint_exists en (ckdir flags))
           else ret false) ;;
  if cond : bool then
    latest_check_point <~ query (ev_latest_checkpoint (ckdir flags))
                                (fun en => latest_checkpoint en (ckdir flags)) ;;
    match latest_check_point with
    | Some c =>
        _ <~ call (ev_print ("restoring from" ++ tab ++ c)%string) ;;
        call (ev_restore c)
    | None => ret tt
    end
  else
    _ <~ try_except (call (ev_rmdir (ckdir flags)))
                    [(is_FileNotFoundError, ret tt);
                     (is_OSError, ret tt)] ;;
    call (ev_mkdir (ckdir flags)).

(** *** Training block (source lines 443-481) *)
Definition train_steps (flags : flags_t) (n_train : nat) : M unit :=
  steps <~ py_range 0 (Z.of_nat n_train) (batch_size flags) ;;
  for_each steps (fun step =>
    _ <~ call (ev_run_batch true) ;;
    _ <~ call ev_run_train_step ;;
    call (ev_add_summary true None)).

(** [total_iou] is accumulated in the test loop and never read. *)
Definition test_steps (flags : flags_t) (n_test : nat) (epoch : Z) : M unit :=
  steps <~ py_range 0 (Z.of_nat n_test) (batch_size flags) ;;
  for_each steps (fun step =>
    _ <~ call (ev_run_batch false) ;;
    _ <~ call ev_run_eval ;;
    call (ev_add_summary false (Some ((epoch + 1) * (step + 1))%Z))).

Definition epoch_loop (flags : flags_t) (n_train n_test : nat) : M unit :=
  epoch_range <~ py_range 0 (epochs flags) 1 ;;
  for_each epoch_range (fun epoch =>
    _ <~ train_steps flags n_train ;;
    test_steps flags n_test epoch).

Definition try_body (flags : flags_t) (n_train n_test : nat) : M unit :=
  _ <~ call ev_get_global_step ;;
  _ <~ call ev_Coordinator ;;
  _ <~ bind_coord ;;
  _ <~ call ev_start_queue_runners ;;
  _ <~ bind_threads ;;
  _ <~ epoch_loop flags n_train n_test ;;
  call (ev_save (checkpoint_path flags)).

Definition finally_clause (flags : flags_t) : M unit :=
  _ <~ read_coord ;;
  _ <~ call ev_request_stop ;;
  _ <~ read_coord ;;
  _ <~ read_threads ;;
  _ <~ call ev_join ;;
  call (ev_save (checkpoint_path flags)).

Definition main_training (flags : flags_t) (n_train n_test : nat) : M unit :=
  try_finally (try_body flags n_train n_test) (finally_clause flags).

(** The two parts in the order of [main], inside the session. *)
Definition main_session (flags : flags_t) (n_train n_test : nat) : M unit :=
  _ <~ main_checkpoint flags ;;
  main_training flags n_train n_test.




(** Running a computation of [main] from the start. *)
Definition result_of {A : Type} (m : M A) (en : env) : exn + A :=
  fst (m en initial_state).

Definition trace_of {A : Type} (m : M A) (en : env) : trace_t :=
  trace (snd (m en initial_state)).

(** What a call that was logged with [o] gave to its caller. *)
Definition outcome (o : option exn) : exn + unit :=
  match o with
  | Some e => inl e
  | None => inr tt
  end.

(** The calls [evs], made one after the other from the trace [tr], all
    return; [returned evs] is what they add to the trace. *)
Fixpoint returns_in_sequence (en : env) (tr : trace_t) (evs : list event)
  : Prop :=
  match evs with
  | [] => True
  | ev :: evs' =>
      raises en tr ev = None /\
      returns_in_sequence en (tr ++ [(ev, None)]) evs'
  end.

Definition returned (evs : list event) : trace_t :=
  map (fun ev => (ev, None)) evs.

(** The first call of a trace that raised, with the exception and the
    calls made after it. *)
Fixpoint first_raise (tr : trace_t) : option (event * exn * trace_t) :=
  match tr with
  | [] => None
  | (ev, Some e) :: rest => Some (ev, e, rest)
  | (_, None) :: rest => first_raise rest
  end.

Definition is_rmdir (ev : event) : bool :=
  match ev with
  | ev_rmdir _ => true
  | _ => false
  end.

(** [os.mkdir] was called on the checkpoint directory and returned. *)
Definition directory_created (flags : flags_t) (tr : trace_t) : Prop :=
  In (ev_mkdir (ckdir flags), None) tr.

(** Example environments.  In the first nothing raises and no checkpoint
    directory exists, so [rmdir] fails with [FileNotFoundError].  In the
    second the training CSV names an image that does not exist: the
    queue-runner thread dies, the first dequeue of a training batch raises,
    and [coord.join] re-raises the error of the thread.  In the third the
    script is started with [--ckdir runs/models] where [runs] does not
    exist: [rmdir] and [mkdir] both fail with [FileNotFoundError].  In the
    fourth the checkpoint directory exists and holds files, none of them a
    checkpoint: [rmdir] fails with [OSError] (directory not empty) and
    [mkdir] with [FileExistsError]. *)
Definition env_fresh_directory : env := {|
  path_exists := fun _ => false;
  checkpoint_exists := fun _ => false;
  latest_checkpoint := fun _ => None;
  raises := fun _ ev => match ev with
                        | ev_rmdir _ => Some FileNotFoundError
                        | _ => None
                        end
|}.

Definition env_missing_image : env := {|
  path_exists := fun _ => true;
  checkpoint_exists := fun _ => true;
  latest_checkpoint := fun _ => None;
  raises := fun _ ev => match ev with
                        | ev_run_batch true => Some OpError
                        | ev_join => Some OpError
                        | _ => None
                        end
|}.

Definition flags_nested_ckdir : flags_t := {|
  data_root := data_root default_flags;
  train := train default_flags;
  test := test default_flags;
  epochs := epochs default_flags;
  learning_rate := learning_rate default_flags;
  batch_size := batch_size default_flags;
  channels := channels default_flags;
  height := height default_flags;
  w := w default_flags;
  logdir := logdir default_flags;
  ckdir := "runs/models"
|}.

Definition env_missing_parent : env := {|
  path_exists := fun _ => false;
  checkpoint_exists := fun _ => false;
  latest_checkpoint := fun _ => None;
  raises := fun _ ev => match ev with
                        | ev_rmdir _ => Some FileNotFoundError
                        | ev_mkdir _ => Some FileNotFoundError
                        | _ => None
                        end
|}.

Definition env_directory_not_empty : env := {|
  path_exists := fun _ => true;
  checkpoint_exists := fun _ => false;
  latest_checkpoint := fun _ => None;
  raises := fun _ ev => match ev with
                        | ev_rmdir _ => Some OSError
                        | ev_mkdir _ => Some FileExistsError
                        | _ => None
                        end
|}.

(** *** The calls of a run in which nothing raises

    The loops of the training block, written as the list of calls they
    make; the properties below compare the run of [main_training] with it. *)
Definition append_trace (s : state) (evs : trace_t) : state :=
  {| trace := trace s ++ evs; coord := coord s; threads := threads s |}.

Definition train_step_events : trace_t :=
  [(ev_run_batch true, None); (ev_run_train_step, None);
   (ev_add_summary true None, None)].

Definition test_step_events (epoch step : Z) : trace_t :=
  [(ev_run_batch false, None); (ev_run_eval, None);
   (ev_add_summary false (Some ((epoch + 1) * (step + 1))%Z), None)].

Definition epoch_events (flags : flags_t) (n_train n_test : nat) (epoch : Z)
  : trace_t :=
  flat_map (fun _ => train_step_events)
           (range_list 0 (Z.of_nat n_train) (batch_size flags))
  ++ flat_map (test_step_events epoch)
              (range_list 0 (Z.of_nat n_test) (batch_size flags)).

Definition training_events (flags : flags_t) (n_train n_test : nat)
  : trace_t :=
  [(ev_get_global_step, None); (ev_Coordinator, None);
   (ev_start_queue_runners, None)]
  ++ flat_map (epoch_events flags n_train n_test)
              (range_list 0 (epochs flags) 1)
  ++ [(ev_save (checkpoint_path flags), None); (ev_request_stop, None);
      (ev_join, None); (ev_save (checkpoint_path flags), None)].

Definition is_train_step (entry : event * option exn) : bool :=
  match fst entry with
  | ev_run_train_step => true
  | _ => false
  end.

Definition count_train_steps (tr : trace_t) : nat :=
  length (filter is_train_step tr).

(** All calls of a trace returned. *)
Definition all_returned (tr : trace_t) : Prop :=
  Forall (fun entry => snd entry = None) tr.

(** A computation that only appends to the trace and stops at the first
    call that raises, with the exception of that call as its outcome. *)
Definition fail_stop {A : Type} (m : M A) : Prop :=
  forall (en : env) (s : state),
  exists new : trace_t,
    trace (snd (m en s)) = trace s ++ new /\
    match fst (m en s) with
    | inr _ => all_returned new
    | inl e =>
        all_returned new \/
        exists pre ev, new = pre ++ [(ev, Some e)] /\ all_returned pre
    end.

(** A computation all of whose calls satisfy [allowed]. *)
Definition emits_only {A : Type} (allowed : event -> Prop) (m : M A) : Prop :=
  forall (en : env) (s : state),
  exists new : trace_t,
    trace (snd (m en s)) = trace s ++ new /\
    Forall (fun entry => allowed (fst entry)) new.

Definition is_save (ev : event) : Prop :=
  match ev with
  | ev_save _ => True
  | _ => False
  end.

(** A computation that, when it ends with an exception, has written no
    checkpoint. *)
Definition fails_unsaved {A : Type} (m : M A) : Prop :=
  forall (en : env) (s : state),
  exists new : trace_t,
    trace (snd (m en s)) = trace s ++ new /\
    forall e : exn,
      fst (m en s) = inl e ->
      forall path : string, ~ In (ev_save path, None) new.

(* ===================================================================== *)
(** * Part II.  Properties                                                *)
(* ===================================================================== *)

(** ** Lists *)

Unset Implicit Arguments.

Lemma zip_with_map_same {A B C D : Type} (g : B -> C -> D)
      (f1 : A -> B) (f2 : A -> C) (l : list A) :
  zip_with g (map f1 l) (map f2 l) = map (fun x => g (f1 x) (f2 x)) l.
Proof.
  unfold zip_with. induction l as [|a l IH]; simpl; [reflexivity|].
  now rewrite IH.
Qed.

Lemma skipn_zip_with {A B C : Type} (f : A -> B -> C) (i : nat) :
  forall (l1 : list A) (l2 : list B),
    skipn i (zip_with f l1 l2) = zip_with f (skipn i l1) (skipn i l2).
Proof.
  unfold zip_with.
  induction i as [|i IH]; intros l1 l2; [reflexivity|].
  destruct l1 as [|a l1]; [reflexivity|].
  destruct l2 as [|b l2]; simpl.
  - now destruct (skipn i l1).
  - apply IH.
Qed.

Lemma firstn_zip_with {A B C : Type} (f : A -> B -> C) (k : nat) :
  forall (l1 : list A) (l2 : list B),
    firstn k (zip_with f l1 l2) = zip_with f (firstn k l1) (firstn k l2).
Proof.
  unfold zip_with.
  induction k as [|k IH]; intros l1 l2; [reflexivity|].
  destruct l1 as [|a l1]; [reflexivity|].
  destruct l2 as [|b l2]; simpl; [reflexivity|].
  now rewrite IH.
Qed.

Lemma rows_zip_with {A B C : Type} (f : A -> B -> C) (n k : nat)
      (l1 : list A) (l2 : list B) :
  rows n k (zip_with f l1 l2)
  = zip_with (zip_with f) (rows n k l1) (rows n k l2).
Proof.
  unfold rows. rewrite zip_with_map_same.
  apply map_ext. intros i.
  now rewrite skipn_zip_with, firstn_zip_with.
Qed.

Lemma otraverse_total {A B : Type} (f : A -> option B) (g : A -> B)
      (l : list A) :
  (forall a, In a l -> f a = Some (g a)) ->
  otraverse f l = Some (map g l).
Proof.
  induction l as [|a l IH]; intros Hf; simpl; [reflexivity|].
  rewrite (Hf a (or_introl eq_refl)). simpl.
  rewrite IH by (intros b Hb; apply Hf; now right). reflexivity.
Qed.

(** ** The overlap score *)

Section OverlapScore.
Context {T : Type} `{Scalar T}.

(** [IOU_] returns for every prediction of rank three or more. *)
Lemma IOU_rank3 {E : Type} (to_float : E -> T) (y_pred : tensor T)
      (y_true : tensor E) (n h w : nat) (rest : list nat) :
  shape y_pred = n :: h :: w :: rest ->
  IOU_ to_float y_pred y_true
  = Some (let k := h * w in
          let N := length (data y_pred) / k in
          let N' := length (data y_true) / k in
          mean_list
            (zip_with s_div
               (map (fun v => s_add v s_eps)
                  (map (s_mul (s_const 2))
                     (map sum_list
                        (rows N k (zip_with s_mul (data y_pred)
                                     (map to_float (data y_true)))))))
               (map (fun v => s_add v s_eps)
                  (zip_with s_add
                     (map sum_list (rows N k (data y_pred)))
                     (map (fun v => v)
                        (map sum_list
                           (rows N' k (map to_float (data y_true))))))))).
Proof.
  intros Hs. unfold IOU_. rewrite Hs. reflexivity.
Qed.

Lemma slice_channel_rank4 (cc n h w c : nat) (t : tensor T) :
  shape t = [n; h; w; c] -> cc < c ->
  exists d, slice_channel cc t = Some (mk_tensor [n; h; w] d).
Proof.
  intros Hs Hc. unfold slice_channel. rewrite Hs.
  apply Nat.ltb_lt in Hc. rewrite Hc. eexists. reflexivity.
Qed.

Lemma sparse_iou_total (y_pred y_true : tensor T) (n h w c : nat) :
  shape y_pred = [n; h; w; c] ->
  exists iou, sparse_iou y_pred y_true = Some iou.
Proof.
  intros Hs. unfold sparse_iou. rewrite Hs. simpl rev.
  match goal with |- context [otraverse ?g _] => set (f := g) end.
  assert (Hall : forall l, (forall cc, In cc l -> cc < c) ->
                           exists r, otraverse f l = Some r).
  { induction l as [|cc l IH]; intros Hl; simpl.
    - now eexists.
    - destruct (slice_channel_rank4 cc n h w c y_pred Hs) as [d Hd].
      { apply Hl. now left. }
      destruct IH as [r Hr]. { intros x Hx. apply Hl. now right. }
      unfold f at 1. rewrite Hd. cbn [obind].
      rewrite (IOU_rank3 bool_to_float (mk_tensor [n; h; w] d)
                 (t_equal y_true cc) n h w [] eq_refl).
      cbn [obind]. rewrite Hr. cbn [obind]. now eexists. }
  destruct (Hall (seq 0 c)) as [r Hr].
  { intros cc Hin. apply in_seq in Hin. lia. }
  rewrite Hr. simpl. now eexists.
Qed.

End OverlapScore.

Section OverlapClaims.
Context {T : Type} `{Scalar T}.

(** C1.  The operation minimised by [make_train_op] is the negation of
    the [sparse_iou] value, and the metric [IOU_op] of [main] is that
    same [sparse_iou] value on the same prediction and labels: whenever
    both operations are built, loss = - metric; and they are built for
    every rank-4 prediction. *)
Theorem training_loss_is_negated_metric
        (lr : Q) (pred y : tensor T) :
  (forall (op : train_op) (IOU_op : T),
      main_ops lr pred y = Some (op, IOU_op) ->
      sparse_iou pred y = Some IOU_op /\
      make_train_op pred y lr (9 # 10)%Q (999 # 1000)%Q (1 # 100000000)%Q
      = Some op /\
      loss op = s_neg IOU_op) /\
  (forall n h w c : nat,
      shape pred = [n; h; w; c] ->
      exists (op : train_op) (IOU_op : T),
        main_ops lr pred y = Some (op, IOU_op)).
Proof.
  split.
  - intros op IOU_op. unfold main_ops, make_train_op, tf_Print.
    destruct (sparse_iou pred y) as [iou|]; simpl; [|discriminate].
    intros Heq. injection Heq as <- <-. repeat split.
  - intros n h w c Hs.
    destruct (sparse_iou_total pred y n h w c Hs) as [iou Hiou].
    unfold main_ops, make_train_op. rewrite Hiou. simpl.
    eauto.
Qed.

(** C2 (as amended).  For a prediction of shape (N, H, W, ...) and labels
    with as many elements, [IOU_] is the mean over the batch of
    (2 * sum(pred * true) + 1e-7) / (sum(pred) + sum(true) + 1e-7),
    each sum taken over the H*W pixels of one sample. *)
Theorem IOU_is_mean_overlap_score
        {E : Type} (to_float : E -> T)
        (y_pred : tensor T) (y_true : tensor E)
        (n h w : nat) (rest : list nat) :
  shape y_pred = n :: h :: w :: rest ->
  length (data y_true) = length (data y_pred) ->
  IOU_ to_float y_pred y_true
  = Some (let k := h * w in
          let N := length (data y_pred) / k in
          mean_list (zip_with overlap_score
                       (rows N k (data y_pred))
                       (rows N k (map to_float (data y_true))))).
Proof.
  intros Hs Hlen. rewrite (IOU_rank3 to_float y_pred y_true n h w rest Hs).
  cbv zeta. rewrite Hlen. do 2 f_equal.
  rewrite rows_zip_with. unfold rows.
  repeat (rewrite map_map || rewrite zip_with_map_same).
  apply map_ext. intros i. reflexivity.
Qed.

End OverlapClaims.

(** C1, at a two-pixel batch with two classes. *)
Lemma training_loss_is_negated_metric_witness :
  exists (op : train_op) (IOU_op : Q),
    main_ops (1 # 1000)%Q
             (mk_tensor [1; 1; 2; 2] [1; 0; 0; 1]%Q)
             (mk_tensor [1; 1; 2; 1] [0; 1]%Q) = Some (op, IOU_op) /\
    loss op = Qopp IOU_op.
Proof.
  destruct (training_loss_is_negated_metric (1 # 1000)%Q
              (mk_tensor [1; 1; 2; 2] [1; 0; 0; 1]%Q)
              (mk_tensor [1; 1; 2; 1] [0; 1]%Q)) as [Hneg Hbuilt].
  destruct (Hbuilt 1 1 2 2 eq_refl) as (op & IOU_op & Hops).
  exists op, IOU_op. split; [exact Hops|].
  exact (proj2 (proj2 (Hneg op IOU_op Hops))).
Defined.

(** C2 (as stated) fails: with prediction (1, 0) and ground truth (1, 1)
    on a 1 x 2 image the intersection has area 1 and the union area 2, so
    intersection over union is 1/2, while [IOU_] returns
    (2 + 1e-7) / (3 + 1e-7). *)
Lemma IOU_is_not_intersection_over_union :
  let y_pred := mk_tensor [1; 1; 2; 1] [1; 0]%Q in
  let y_true := mk_tensor [1; 1; 2; 1] [1; 1]%Q in
  (spec_mean_iou 2 y_pred y_true == 1 # 2)%Q /\
  exists v : Q,
    IOU_ (fun x : Q => x) y_pred y_true = Some v /\
    (v == 20000001 # 30000001)%Q /\
    ~ (v == spec_mean_iou 2 y_pred y_true)%Q.
Proof.
  cbv zeta. split; [reflexivity|].
  eexists. split; [vm_compute; reflexivity|].
  split; [reflexivity|].
  intros Heq. vm_compute in Heq. discriminate Heq.
Qed.

(** C2 (as amended), at the same input. *)
Lemma IOU_is_mean_overlap_score_witness :
  IOU_ (fun x : Q => x)
       (mk_tensor [1; 1; 2; 1] [1; 0]%Q) (mk_tensor [1; 1; 2; 1] [1; 1]%Q)
  = Some (mean_list [overlap_score [1; 0]%Q [1; 1]%Q]).
Proof.
  exact (IOU_is_mean_overlap_score (fun x : Q => x)
           (mk_tensor [1; 1; 2; 1] [1; 0]%Q)
           (mk_tensor [1; 1; 2; 1] [1; 1]%Q)
           1 1 2 [1] eq_refl eq_refl).
Defined.

(** ** Graph construction *)

Lemma obind_Some {A B : Type} (m : option A) (k : A -> option B) (b : B) :
  obind m k = Some b -> exists a, m = Some a /\ k a = Some b.
Proof.
  destruct m as [a|]; simpl; [|discriminate]. intros Hk. now exists a.
Qed.

Lemma obind_Some_l {A B : Type} (a : A) (k : A -> option B) :
  obind (Some a) k = k a.
Proof. reflexivity. Qed.

Lemma tf_op_Some (t r : node) :
  tf_op t = Some r -> r = t /\ exists s, get_shape t = Some s.
Proof.
  unfold tf_op. destruct (get_shape t) as [s|] eqn:Hs; [|discriminate].
  intros Heq. injection Heq as <-. split; [reflexivity|now exists s].
Qed.

Lemma tf_op_ok (t : node) (s : Z * Z * Z) :
  get_shape t = Some s -> tf_op t = Some t.
Proof. unfold tf_op. now intros ->. Qed.

Ltac invert_bind H :=
  let a := fresh "a" in
  let Ha := fresh "Ha" in
  apply obind_Some in H; destruct H as (a & Ha & H).

Section ConvBlock.
Variables (training : node) (scope : string) (name : nat)
          (activation : activation_fn).

Lemma conv_bn_act_sound (net r : node) (i : nat) (F : Z) :
  conv_bn_act training scope name activation net i F = Some r ->
  r = conv_bn_act_term training scope name activation net i F.
Proof.
  unfold conv_bn_act, tf_layers_conv2d, tf_layers_batch_normalization,
    call_activation.
  intros Hr.
  invert_bind Hr. apply tf_op_Some in Ha as [-> _].
  invert_bind Hr. apply tf_op_Some in Ha as [-> _].
  apply tf_op_Some in Hr as [-> _]. reflexivity.
Qed.

Lemma conv_bn_act_term_shape (net : node) (i : nat) (F h w c : Z) :
  get_shape net = Some (h, w, c) -> (0 <= F)%Z ->
  get_shape (conv_bn_act_term training scope name activation net i F)
  = Some (h, w, F).
Proof.
  intros Hs HF. simpl. rewrite Hs.
  destruct (F <? 0)%Z eqn:Hneg; [apply Z.ltb_lt in Hneg; lia|reflexivity].
Qed.

Lemma conv_bn_act_ok (net : node) (i : nat) (F h w c : Z) :
  get_shape net = Some (h, w, c) -> (0 <= F)%Z ->
  conv_bn_act training scope name activation net i F
  = Some (conv_bn_act_term training scope name activation net i F).
Proof.
  intros Hs HF.
  pose proof (conv_bn_act_term_shape net i F h w c Hs HF) as Hterm.
  unfold conv_bn_act_term in Hterm. simpl in Hterm.
  unfold conv_bn_act, tf_layers_conv2d, tf_layers_batch_normalization,
    call_activation, tf_op.
  simpl. rewrite Hterm. simpl. rewrite Hterm. simpl. rewrite Hterm.
  reflexivity.
Qed.

Lemma conv_loop_sound (n_filters : list Z) :
  forall (net r : node) (i : nat),
    conv_loop training scope name activation net i n_filters = Some r ->
    r = layer_stack training scope name activation net i n_filters.
Proof.
  induction n_filters as [|F rest IH]; intros net r i Hr; simpl in *.
  - now injection Hr as <-.
  - invert_bind Hr. apply conv_bn_act_sound in Ha. subst a.
    now apply IH.
Qed.

Lemma conv_loop_ok (n_filters : list Z) :
  forall (net : node) (i : nat) (h w c : Z),
    get_shape net = Some (h, w, c) ->
    Forall (fun F => (0 <= F)%Z) n_filters ->
    conv_loop training scope name activation net i n_filters
    = Some (layer_stack training scope name activation net i n_filters)
    /\ get_shape (layer_stack training scope name activation net i
                              n_filters)
       = Some (h, w, last n_filters c).
Proof.
  induction n_filters as [|F rest IH]; intros net i h w c Hs Hall.
  - simpl. now split.
  - inversion Hall as [|F' rest' HF Hrest]; subst.
    cbn [conv_loop layer_stack].
    rewrite (conv_bn_act_ok net i F h w c Hs HF). cbn [obind].
    destruct (IH (conv_bn_act_term training scope name activation net i F)
                 (S i) h w F
                 (conv_bn_act_term_shape net i F h w c Hs HF) Hrest)
      as [Hloop Hshape].
    split; [exact Hloop|].
    rewrite Hshape. f_equal. f_equal.
    destruct rest as [|F2 rest]; [reflexivity|].
    clear. revert F2. induction rest as [|F3 rest IHr]; intros F2.
    + reflexivity.
    + change (last (F2 :: F3 :: rest) F) with (last (F3 :: rest) F).
      change (last (F :: F2 :: F3 :: rest) c) with (last (F3 :: rest) c).
      specialize (IHr F3).
      change (last (F :: F3 :: rest) c) with (last (F3 :: rest) c) in IHr.
      destruct rest; [reflexivity|].
      exact IHr.
Qed.

End ConvBlock.

(** C4.  Every block built by [conv_conv_pool] is a stack of layers, each
    of which is conv2d, then batch normalisation, then the activation; for
    the two-filter lists used by the script that is two such layers, the
    second on top of the first.  With [pool = True] the block also returns
    the 2x2, stride-2 max-pooling of the last activation.  The block is
    built whenever the input has a static shape, the filter counts are not
    negative and, for pooling, the map is at least 2x2. *)
Theorem conv_conv_pool_layers
        (input_ training : node) (n_filters : list Z) (name : nat)
        (pool : bool) (activation : activation_fn) :
  let scope := ("layer" ++ str name)%string in
  let net := conv_block training name activation input_ n_filters in
  (forall b : block,
      conv_conv_pool input_ n_filters training name pool activation = Some b ->
      b = if pool then NetPool net (MaxPooling2D net (2, 2)%Z (2, 2)%Z
                                      (scope ++ "/pool_" ++ str name)%string)
          else Net net) /\
  (forall F1 F2 : Z,
      n_filters = [F1; F2] ->
      net =
      Activate activation
        (BatchNormalization
           (Conv2D
              (Activate activation
                 (BatchNormalization
                    (Conv2D input_ F1 (3, 3)%Z None pad_same
                            (scope ++ "/conv_1")%string)
                    training (scope ++ "/bn_1")%string)
                 (scope ++ "/relu" ++ str name ++ "_1")%string)
              F2 (3, 3)%Z None pad_same (scope ++ "/conv_2")%string)
           training (scope ++ "/bn_2")%string)
        (scope ++ "/relu" ++ str name ++ "_2")%string) /\
  (forall h w c : Z,
      get_shape input_ = Some (h, w, c) ->
      Forall (fun F => (0 <= F)%Z) n_filters ->
      (pool = true -> (2 <= h)%Z /\ (2 <= w)%Z) ->
      exists b : block,
        conv_conv_pool input_ n_filters training name pool activation
        = Some b).
Proof.
  cbv zeta. split; [|split].
  - intros b Hb. unfold conv_conv_pool in Hb.
    invert_bind Hb. apply conv_loop_sound in Ha. subst a.
    fold (conv_block training name activation input_ n_filters) in Hb.
    destruct pool; simpl in Hb.
    + invert_bind Hb. unfold tf_layers_max_pooling2d in Ha.
      apply tf_op_Some in Ha as [-> _]. now injection Hb as <-.
    + now injection Hb as <-.
  - intros F1 F2 ->. reflexivity.
  - intros h w c Hs Hall Hpool. unfold conv_conv_pool.
    destruct (conv_loop_ok training ("layer" ++ str name)%string name
                activation n_filters input_ 0 h w c Hs Hall)
      as [Hloop Hshape].
    rewrite Hloop. cbn [obind].
    destruct pool; simpl negb; cbv iota; [|eauto].
    destruct (Hpool eq_refl) as [Hh Hw].
    unfold tf_layers_max_pooling2d, tf_op.
    cbn [get_shape]. rewrite Hshape.
    apply Z.leb_le in Hh, Hw. rewrite Hh, Hw. simpl. eauto.
Qed.

(** C4, at the first block of the network on a 16 x 16 input. *)
Lemma conv_conv_pool_layers_witness :
  exists net pool : node,
    conv_conv_pool (Placeholder tf_float32 (Some (16, 16, 3)%Z) "X")
                   [8; 8]%Z main_mode 1 true tf_nn_relu
    = Some (NetPool net pool) /\
    pool = MaxPooling2D net (2, 2)%Z (2, 2)%Z "layer1/pool_1".
Proof.
  destruct (conv_conv_pool_layers
              (Placeholder tf_float32 (Some (16, 16, 3)%Z) "X")
              main_mode [8; 8]%Z 1 true tf_nn_relu)
    as (Hsound & _ & Hbuilt).
  destruct (Hbuilt 16%Z 16%Z 3%Z eq_refl) as [b Hb].
  - repeat constructor; discriminate.
  - intros _. split; discriminate.
  - pose proof (Hsound b Hb) as Heq. rewrite Heq in Hb.
    eexists. eexists. split; [exact Hb|reflexivity].
Defined.

(** *** Blocks as they are used by [make_unet] *)

Lemma pooled_block_sound (net training : node) (n_filters : list Z)
      (name : nat) (conv pool : node) :
  (b <-? conv_conv_pool net n_filters training name true tf_nn_relu ;;
   unpack_pair b) = Some (conv, pool) ->
  conv = conv_block training name tf_nn_relu net n_filters /\
  pool = pooled name conv.
Proof.
  intros Hb. invert_bind Hb. unfold conv_conv_pool in Ha.
  invert_bind Ha. apply conv_loop_sound in Ha0. subst a0.
  simpl in Ha. invert_bind Ha.
  apply tf_op_Some in Ha0 as [-> _]. injection Ha as <-.
  simpl in Hb. injection Hb as <- <-. split; reflexivity.
Qed.

Lemma plain_block_sound (net training : node) (n_filters : list Z)
      (name : nat) (conv : node) :
  (b <-? conv_conv_pool net n_filters training name false tf_nn_relu ;;
   as_tensor b) = Some conv ->
  conv = conv_block training name tf_nn_relu net n_filters.
Proof.
  intros Hb. invert_bind Hb. unfold conv_conv_pool in Ha.
  invert_bind Ha. apply conv_loop_sound in Ha0. subst a0.
  simpl in Ha. injection Ha as <-.
  simpl in Hb. now injection Hb as <-.
Qed.

Lemma pooled_block_ok (net training : node) (F : Z) (name : nat)
      (h w c : Z) :
  get_shape net = Some (h * 2, w * 2, c)%Z ->
  (1 <= h)%Z -> (1 <= w)%Z -> (0 <= F)%Z ->
  let conv := conv_block training name tf_nn_relu net [F; F] in
  (b <-? conv_conv_pool net [F; F] training name true tf_nn_relu ;;
   unpack_pair b) = Some (conv, pooled name conv) /\
  get_shape conv = Some (h * 2, w * 2, F)%Z /\
  get_shape (pooled name conv) = Some (h, w, F).
Proof.
  intros Hs Hh Hw HF conv.
  destruct (conv_loop_ok training ("layer" ++ str name)%string name
              tf_nn_relu [F; F] net 0 _ _ _ Hs) as [Hloop Hshape].
  { repeat constructor; assumption. }
  fold (conv_block training name tf_nn_relu net [F; F]) in Hloop, Hshape.
  fold conv in Hloop, Hshape. cbn [last] in Hshape.
  assert (Hpool : get_shape (pooled name conv) = Some (h, w, F)).
  { unfold pooled. cbn [get_shape]. rewrite Hshape.
    replace (2 <=? h * 2)%Z with true by (symmetry; apply Z.leb_le; lia).
    replace (2 <=? w * 2)%Z with true by (symmetry; apply Z.leb_le; lia).
    cbn [andb].
    replace ((h * 2 - 2) / 2 + 1)%Z with h.
    2:{ replace (h * 2 - 2)%Z with ((h - 1) * 2)%Z by lia.
        rewrite Z.div_mul by lia. lia. }
    replace ((w * 2 - 2) / 2 + 1)%Z with w.
    2:{ replace (w * 2 - 2)%Z with ((w - 1) * 2)%Z by lia.
        rewrite Z.div_mul by lia. lia. }
    reflexivity. }
  split; [|split; assumption].
  unfold conv_conv_pool. cbv zeta. rewrite Hloop, obind_Some_l.
  change (negb true) with false. cbv iota.
  unfold tf_layers_max_pooling2d. fold (pooled name conv).
  rewrite (tf_op_ok _ _ Hpool). reflexivity.
Qed.

Lemma plain_block_ok (net training : node) (F : Z) (name : nat)
      (h w c : Z) :
  get_shape net = Some (h, w, c) -> (0 <= F)%Z ->
  let conv := conv_block training name tf_nn_relu net [F; F] in
  (b <-? conv_conv_pool net [F; F] training name false tf_nn_relu ;;
   as_tensor b) = Some conv /\
  get_shape conv = Some (h, w, F).
Proof.
  intros Hs HF conv.
  destruct (conv_loop_ok training ("layer" ++ str name)%string name
              tf_nn_relu [F; F] net 0 _ _ _ Hs) as [Hloop Hshape].
  { repeat constructor; assumption. }
  fold (conv_block training name tf_nn_relu net [F; F]) in Hloop, Hshape.
  fold conv in Hloop, Hshape. cbn [last] in Hshape.
  split; [|assumption].
  unfold conv_conv_pool. rewrite Hloop. reflexivity.
Qed.

Lemma upsample_concat_sound (low skip up : node) (name : nat) :
  upsample_concat low skip name = Some up ->
  exists h w c cs : Z,
    get_shape low = Some (h, w, c) /\
    get_shape skip = Some (h * 2, w * 2, cs)%Z /\
    up = skip_concat name low skip h w.
Proof.
  unfold upsample_concat, upsampling_2D. intros Hup. invert_bind Hup.
  destruct (get_shape low) as [[[h w] c]|] eqn:Hlow; [|discriminate].
  unfold tf_image_resize_nearest_neighbor in Ha.
  apply tf_op_Some in Ha as [-> _].
  unfold tf_concat in Hup. apply tf_op_Some in Hup as [-> [s Hs]].
  cbn [get_shape] in Hs. rewrite Hlow in Hs.
  destruct (get_shape skip) as [[[hs ws] cs]|]; [|discriminate].
  destruct ((h * 2 =? hs) && (w * 2 =? ws))%Z eqn:Heq; [|discriminate].
  apply andb_true_iff in Heq as [Hh Hw].
  apply Z.eqb_eq in Hh, Hw. subst hs ws.
  exists h, w, c, cs. repeat split.
Qed.

Lemma upsample_concat_ok (low skip : node) (name : nat) (h w c cs : Z) :
  get_shape low = Some (h, w, c) ->
  get_shape skip = Some (h * 2, w * 2, cs)%Z ->
  upsample_concat low skip name = Some (skip_concat name low skip h w) /\
  get_shape (skip_concat name low skip h w)
  = Some (h * 2, w * 2, c + cs)%Z.
Proof.
  intros Hlow Hskip.
  assert (Hcat : get_shape (skip_concat name low skip h w)
                 = Some (h * 2, w * 2, c + cs)%Z).
  { unfold skip_concat, upsampled. cbn [get_shape].
    rewrite Hlow, Hskip. now rewrite !Z.eqb_refl. }
  split; [|exact Hcat].
  unfold upsample_concat, upsampling_2D. rewrite Hlow.
  unfold tf_image_resize_nearest_neighbor, tf_op. cbn [get_shape].
  rewrite Hlow. cbn [obind]. unfold tf_concat.
  apply (tf_op_ok _ _ Hcat).
Qed.

(** The network is built on every input whose height and width are
    positive multiples of 16, and its output then has the height and width
    of the input and [classes] channels. *)
Lemma make_unet_builds (X training : node) (activation : activation_fn)
      (classes a b cx : Z) :
  get_shape X = Some (a * 2 * 2 * 2 * 2, b * 2 * 2 * 2 * 2, cx)%Z ->
  (1 <= a)%Z -> (1 <= b)%Z -> (0 <= classes)%Z ->
  exists out last_conv : node,
    make_unet X training activation classes = Some out /\
    out = Conv2D last_conv classes (1, 1)%Z (Some activation) pad_same
                 "final" /\
    get_shape out
    = Some (a * 2 * 2 * 2 * 2, b * 2 * 2 * 2 * 2, classes)%Z.
Proof.
  intros HX Ha Hb Hc. unfold make_unet.
  rewrite (tf_op_ok (DivScalar X (255 # 2)%Q) _ HX), obind_Some_l.
  rewrite (tf_op_ok (SubScalar (DivScalar X (255 # 2)%Q) 1%Q) _ HX),
    obind_Some_l.
  set (net0 := Conv2D (SubScalar (DivScalar X (255 # 2)%Q) 1%Q) 3 (1, 1)%Z
                      None pad_valid "color_space_adjust").
  assert (H0 : get_shape net0
               = Some (a * 2 * 2 * 2 * 2, b * 2 * 2 * 2 * 2, 3)%Z).
  { unfold net0. cbn [get_shape]. rewrite HX.
    replace (1 <=? a * 2 * 2 * 2 * 2)%Z with true
      by (symmetry; apply Z.leb_le; lia).
    replace (1 <=? b * 2 * 2 * 2 * 2)%Z with true
      by (symmetry; apply Z.leb_le; lia).
    cbn [andb Z.ltb Z.compare]. do 3 f_equal; lia. }
  unfold tf_layers_conv2d at 1. fold net0.
  rewrite (tf_op_ok net0 _ H0), obind_Some_l.
  destruct (pooled_block_ok net0 training 8 1 _ _ _ H0) as (E1 & S1 & P1);
    try lia.
  rewrite E1, obind_Some_l.
  destruct (pooled_block_ok _ training 16 2 _ _ _ P1) as (E2 & S2 & P2);
    try lia.
  rewrite E2, obind_Some_l.
  destruct (pooled_block_ok _ training 32 3 _ _ _ P2) as (E3 & S3 & P3);
    try lia.
  rewrite E3, obind_Some_l.
  destruct (pooled_block_ok _ training 64 4 _ _ _ P3) as (E4 & S4 & P4);
    try lia.
  rewrite E4, obind_Some_l.
  destruct (plain_block_ok _ training 128 5 _ _ _ P4) as (E5 & S5);
    try lia.
  rewrite E5, obind_Some_l.
  destruct (upsample_concat_ok _ _ 6 _ _ _ _ S5 S4) as (U6 & T6).
  rewrite U6, obind_Some_l.
  destruct (plain_block_ok _ training 64 6 _ _ _ T6) as (E6 & S6); try lia.
  rewrite E6, obind_Some_l.
  destruct (upsample_concat_ok _ _ 7 _ _ _ _ S6 S3) as (U7 & T7).
  rewrite U7, obind_Some_l.
  destruct (plain_block_ok _ training 32 7 _ _ _ T7) as (E7 & S7); try lia.
  rewrite E7, obind_Some_l.
  destruct (upsample_concat_ok _ _ 8 _ _ _ _ S7 S2) as (U8 & T8).
  rewrite U8, obind_Some_l.
  destruct (plain_block_ok _ training 16 8 _ _ _ T8) as (E8 & S8); try lia.
  rewrite E8, obind_Some_l.
  destruct (upsample_concat_ok _ _ 9 _ _ _ _ S8 S1) as (U9 & T9).
  rewrite U9, obind_Some_l.
  destruct (plain_block_ok _ training 8 9 _ _ _ T9) as (E9 & S9); try lia.
  rewrite E9, obind_Some_l.
  set (conv9 := conv_block training 9 tf_nn_relu _ [8; 8]%Z) in *.
  assert (Hout : get_shape (Conv2D conv9 classes (1, 1)%Z (Some activation)
                              pad_same "final")
                 = Some (a * 2 * 2 * 2 * 2, b * 2 * 2 * 2 * 2, classes)%Z).
  { cbn [get_shape]. rewrite S9.
    destruct (classes <? 0)%Z eqn:Hneg; [apply Z.ltb_lt in Hneg; lia|].
    reflexivity. }
  eexists. exists conv9. split; [|split; [reflexivity|exact Hout]].
  unfold tf_layers_conv2d. apply (tf_op_ok _ _ Hout).
Qed.

(** C3.  Whenever [make_unet] builds a network, the network is the
    following encoder/decoder: four blocks of two conv layers, each followed
    by a 2x2 stride-2 max-pooling, a fifth block, and four expanding steps
    each of which resizes the lower-resolution map (of height [h] and width
    [w]) to [2h] x [2w] by nearest neighbour and concatenates it on the
    channel axis with the output of the contracting block of that
    resolution - [conv4], [conv3], [conv2], [conv1] in this order - before
    the next two conv layers.  Such a network is built for every input
    whose height and width are positive multiples of 16. *)
Theorem make_unet_topology
        (X training : node) (activation : activation_fn) (classes : Z) :
  let net0 := Conv2D (SubScalar (DivScalar X (255 # 2)%Q) 1%Q) 3 (1, 1)%Z
                     None pad_valid "color_space_adjust" in
  let conv1 := conv_block training 1 tf_nn_relu net0 [8; 8]%Z in
  let pool1 := pooled 1 conv1 in
  let conv2 := conv_block training 2 tf_nn_relu pool1 [16; 16]%Z in
  let pool2 := pooled 2 conv2 in
  let conv3 := conv_block training 3 tf_nn_relu pool2 [32; 32]%Z in
  let pool3 := pooled 3 conv3 in
  let conv4 := conv_block training 4 tf_nn_relu pool3 [64; 64]%Z in
  let pool4 := pooled 4 conv4 in
  let conv5 := conv_block training 5 tf_nn_relu pool4 [128; 128]%Z in
  (forall out : node,
      make_unet X training activation classes = Some out ->
      exists h5 w5 h6 w6 h7 w7 h8 w8 : Z,
        let up6 := skip_concat 6 conv5 conv4 h5 w5 in
        let conv6 := conv_block training 6 tf_nn_relu up6 [64; 64]%Z in
        let up7 := skip_concat 7 conv6 conv3 h6 w6 in
        let conv7 := conv_block training 7 tf_nn_relu up7 [32; 32]%Z in
        let up8 := skip_concat 8 conv7 conv2 h7 w7 in
        let conv8 := conv_block training 8 tf_nn_relu up8 [16; 16]%Z in
        let up9 := skip_concat 9 conv8 conv1 h8 w8 in
        let conv9 := conv_block training 9 tf_nn_relu up9 [8; 8]%Z in
        (exists c s, get_shape conv5 = Some (h5, w5, c) /\
                     get_shape conv4 = Some (h5 * 2, w5 * 2, s)%Z) /\
        (exists c s, get_shape conv6 = Some (h6, w6, c) /\
                     get_shape conv3 = Some (h6 * 2, w6 * 2, s)%Z) /\
        (exists c s, get_shape conv7 = Some (h7, w7, c) /\
                     get_shape conv2 = Some (h7 * 2, w7 * 2, s)%Z) /\
        (exists c s, get_shape conv8 = Some (h8, w8, c) /\
                     get_shape conv1 = Some (h8 * 2, w8 * 2, s)%Z) /\
        out = Conv2D conv9 classes (1, 1)%Z (Some activation) pad_same
                     "final") /\
  (forall a b cx : Z,
      get_shape X = Some (16 * a, 16 * b, cx)%Z ->
      (1 <= a)%Z -> (1 <= b)%Z -> (0 <= classes)%Z ->
      exists out : node,
        make_unet X training activation classes = Some out).
Proof.
  cbv zeta. split.
  - intros out Hout. unfold make_unet in Hout.
    invert_bind Hout. apply tf_op_Some in Ha as [-> _].
    invert_bind Hout. apply tf_op_Some in Ha as [-> _].
    invert_bind Hout. apply tf_op_Some in Ha as [-> _].
    invert_bind Hout. destruct a as [conv1 pool1].
    apply pooled_block_sound in Ha as [-> ->].
    invert_bind Hout. destruct a as [conv2 pool2].
    apply pooled_block_sound in Ha as [-> ->].
    invert_bind Hout. destruct a as [conv3 pool3].
    apply pooled_block_sound in Ha as [-> ->].
    invert_bind Hout. destruct a as [conv4 pool4].
    apply pooled_block_sound in Ha as [-> ->].
    invert_bind Hout. apply plain_block_sound in Ha. subst a.
    invert_bind Hout.
    apply upsample_concat_sound in Ha as (h5 & w5 & c5 & s5 & L5 & K5 & ->).
    invert_bind Hout. apply plain_block_sound in Ha. subst a.
    invert_bind Hout.
    apply upsample_concat_sound in Ha as (h6 & w6 & c6 & s6 & L6 & K6 & ->).
    invert_bind Hout. apply plain_block_sound in Ha. subst a.
    invert_bind Hout.
    apply upsample_concat_sound in Ha as (h7 & w7 & c7 & s7 & L7 & K7 & ->).
    invert_bind Hout. apply plain_block_sound in Ha. subst a.
    invert_bind Hout.
    apply upsample_concat_sound in Ha as (h8 & w8 & c8 & s8 & L8 & K8 & ->).
    invert_bind Hout. apply plain_block_sound in Ha. subst a.
    unfold tf_layers_conv2d in Hout. apply tf_op_Some in Hout as [-> _].
    exists h5, w5, h6, w6, h7, w7, h8, w8.
    repeat split; eauto.
  - intros a b cx HX Ha Hb Hc.
    destruct (make_unet_builds X training activation classes a b cx)
      as (out & last_conv & Hout & _); try assumption.
    + rewrite HX. do 3 f_equal; lia.
    + now exists out.
Qed.

(** C3, at a 32 x 16 input with one class. *)
Lemma make_unet_topology_witness :
  let X := Placeholder tf_float32 (Some (32, 16, 3)%Z) "X" in
  exists out conv9 : node,
    make_unet X main_mode tf_nn_sigmoid 1 = Some out /\
    out = Conv2D conv9 1 (1, 1)%Z (Some tf_nn_sigmoid) pad_same "final".
Proof.
  intros X.
  destruct (make_unet_topology X main_mode tf_nn_sigmoid 1)
    as [Htopology Hbuilt].
  destruct (Hbuilt 2%Z 1%Z 3%Z eq_refl) as [out Hout]; try lia.
  destruct (Htopology out Hout)
    as (h5 & w5 & h6 & w6 & h7 & w7 & h8 & w8 & _ & _ & _ & _ & Heq).
  exists out. eexists. split; [exact Hout|exact Heq].
Defined.

(** *** Heights and widths on which the network can be built *)

Lemma layer_stack_shape_inv (training : node) (scope : string) (name : nat)
      (activation : activation_fn) (n_filters : list Z) :
  forall (net : node) (i : nat) (h w c : Z),
    get_shape (layer_stack training scope name activation net i n_filters)
    = Some (h, w, c) ->
    exists c0, get_shape net = Some (h, w, c0).
Proof.
  induction n_filters as [|F rest IH]; intros net i h w c Hs.
  - now exists c.
  - cbn [layer_stack] in Hs. apply IH in Hs as [c1 Hs].
    unfold conv_bn_act_term in Hs. cbn [get_shape] in Hs.
    destruct (get_shape net) as [[[h0 w0] c0]|]; [|discriminate].
    destruct (F <? 0)%Z; [discriminate|].
    injection Hs as <- <- _. now exists c0.
Qed.

Lemma skip_concat_shape_inv (name : nat) (low skip : node)
      (h w h' w' c : Z) :
  get_shape (skip_concat name low skip h w) = Some (h', w', c) ->
  h' = (h * 2)%Z /\ w' = (w * 2)%Z.
Proof.
  unfold skip_concat, upsampled. cbn [get_shape]. intros Hs.
  destruct (get_shape low) as [[[hl wl] cl]|]; [|discriminate].
  destruct (get_shape skip) as [[[hs ws] cs]|]; [|discriminate].
  destruct ((h * 2 =? hs) && (w * 2 =? ws))%Z; [|discriminate].
  injection Hs as <- <- _. now split.
Qed.

Lemma pooled_shape_inv (name : nat) (net : node) (h w c : Z) :
  get_shape (pooled name net) = Some (h, w, c) -> (1 <= h)%Z /\ (1 <= w)%Z.
Proof.
  unfold pooled. cbn [get_shape]. intros Hs.
  destruct (get_shape net) as [[[h0 w0] c0]|]; [|discriminate].
  destruct ((2 <=? h0) && (2 <=? w0))%Z eqn:Hbig; [|discriminate].
  apply andb_true_iff in Hbig as [Hh Hw]. apply Z.leb_le in Hh, Hw.
  injection Hs as <- <- _.
  pose proof (Z.div_pos (h0 - 2) 2). pose proof (Z.div_pos (w0 - 2) 2).
  lia.
Qed.

Lemma make_unet_needs_multiples_of_16
      (X training : node) (activation : activation_fn) (classes : Z)
      (out : node) (H W cx : Z) :
  make_unet X training activation classes = Some out ->
  get_shape X = Some (H, W, cx) ->
  exists a b : Z,
    H = (16 * a)%Z /\ W = (16 * b)%Z /\ (1 <= a)%Z /\ (1 <= b)%Z.
Proof.
  intros Hout HX. unfold make_unet in Hout.
  invert_bind Hout. apply tf_op_Some in Ha as [-> _].
  invert_bind Hout. apply tf_op_Some in Ha as [-> _].
  invert_bind Hout. apply tf_op_Some in Ha as [-> _].
  invert_bind Hout. destruct a as [conv1 pool1].
  apply pooled_block_sound in Ha as [-> ->].
  invert_bind Hout. destruct a as [conv2 pool2].
  apply pooled_block_sound in Ha as [-> ->].
  invert_bind Hout. destruct a as [conv3 pool3].
  apply pooled_block_sound in Ha as [-> ->].
  invert_bind Hout. destruct a as [conv4 pool4].
  apply pooled_block_sound in Ha as [-> ->].
  invert_bind Hout. apply plain_block_sound in Ha. subst a.
  invert_bind Hout.
  apply upsample_concat_sound in Ha as (h5 & w5 & c5 & s5 & L5 & K5 & ->).
  invert_bind Hout. apply plain_block_sound in Ha. subst a.
  invert_bind Hout.
  apply upsample_concat_sound in Ha as (h6 & w6 & c6 & s6 & L6 & K6 & ->).
  invert_bind Hout. apply plain_block_sound in Ha. subst a.
  invert_bind Hout.
  apply upsample_concat_sound in Ha as (h7 & w7 & c7 & s7 & L7 & K7 & ->).
  invert_bind Hout. apply plain_block_sound in Ha. subst a.
  invert_bind Hout.
  apply upsample_concat_sound in Ha as (h8 & w8 & c8 & s8 & L8 & K8 & ->).
  clear Hout.
  apply layer_stack_shape_inv in L5 as [c0 L5].
  apply pooled_shape_inv in L5 as [Hh5 Hw5].
  apply layer_stack_shape_inv in L6 as [c1 L6].
  apply skip_concat_shape_inv in L6 as [-> ->].
  apply layer_stack_shape_inv in L7 as [c2 L7].
  apply skip_concat_shape_inv in L7 as [-> ->].
  apply layer_stack_shape_inv in L8 as [c3 L8].
  apply skip_concat_shape_inv in L8 as [-> ->].
  apply layer_stack_shape_inv in K8 as [c4 K8].
  cbn [get_shape] in K8. rewrite HX in K8.
  destruct ((1 <=? H) && (1 <=? W))%Z; [|discriminate].
  cbn [Z.ltb Z.compare] in K8. injection K8 as EH EW.
  exists h5, w5. repeat split; lia.
Qed.

(** C7 (as amended).  For every flags value [main] passes softmax as the
    final activation exactly when [channels > 1] and sigmoid exactly when
    [channels <= 1]; and when [height] and [w] are positive multiples of 16
    and [channels] is at least 1, the network is built, ends in a 1x1
    convolution with that activation, and its output has the height and
    width of the input and [channels] channels.  For no other height or
    width is a network built. *)
Theorem main_pred_classifies_each_pixel (flags : flags_t) :
  (main_activation flags = tf_nn_softmax <-> (channels flags > 1)%Z) /\
  (main_activation flags = tf_nn_sigmoid <-> (channels flags <= 1)%Z) /\
  (forall a b : Z,
      height flags = (16 * a)%Z -> w flags = (16 * b)%Z ->
      (1 <= a)%Z -> (1 <= b)%Z -> (1 <= channels flags)%Z ->
      exists out last_conv : node,
        main_pred flags = Some out /\
        out = Conv2D last_conv (channels flags) (1, 1)%Z
                     (Some (main_activation flags)) pad_same "final" /\
        get_shape out = Some (height flags, w flags, channels flags)) /\
  (forall out : node,
      main_pred flags = Some out ->
      exists a b : Z,
        height flags = (16 * a)%Z /\ w flags = (16 * b)%Z /\
        (1 <= a)%Z /\ (1 <= b)%Z).
Proof.
  split; [|split; [|split]].
  - unfold main_activation.
    destruct (channels flags >? 1)%Z eqn:Hc.
    + split; [intros _|reflexivity]. apply Z.gtb_lt in Hc. lia.
    + split; [discriminate|]. intros Hgt.
      apply Z.gt_lt, Z.gtb_lt in Hgt. congruence.
  - unfold main_activation.
    destruct (channels flags >? 1)%Z eqn:Hc.
    + split; [discriminate|]. intros Hle. apply Z.gtb_lt in Hc. lia.
    + split; [intros _|reflexivity].
      destruct (Z.le_gt_cases (channels flags) 1) as [Hle|Hgt];
        [exact Hle|].
      apply Z.gtb_lt in Hgt. congruence.
  - intros a b Hh Hw Ha Hb Hc.
    assert (HX : get_shape (main_X flags)
                 = Some (a * 2 * 2 * 2 * 2, b * 2 * 2 * 2 * 2, 3)%Z).
    { unfold main_X. cbn [get_shape]. rewrite Hh, Hw.
      replace (0 <=? 16 * a)%Z with true by (symmetry; apply Z.leb_le; lia).
      replace (0 <=? 16 * b)%Z with true by (symmetry; apply Z.leb_le; lia).
      cbn [andb Z.leb Z.compare]. do 3 f_equal; lia. }
    destruct (make_unet_builds (main_X flags) main_mode
                (main_activation flags) (channels flags) a b 3 HX Ha Hb)
      as (out & last_conv & Hout & Heq & Hshape); [lia|].
    exists out, last_conv. split; [|split; [exact Heq|]].
    + unfold main_pred. rewrite (tf_op_ok _ _ HX), obind_Some_l.
      exact Hout.
    + rewrite Hshape, Hh, Hw. do 3 f_equal; lia.
  - intros out Hout. unfold main_pred in Hout.
    invert_bind Hout. apply tf_op_Some in Ha as [-> [s HX]].
    assert (HX' : get_shape (main_X flags)
                  = Some (height flags, w flags, 3%Z)).
    { unfold main_X in *. cbn [get_shape] in *.
      destruct ((0 <=? height flags) && (0 <=? w flags) && (0 <=? 3))%Z;
        [reflexivity|discriminate]. }
    apply (make_unet_needs_multiples_of_16 _ _ _ _ _ _ _ _ Hout HX').
Qed.

(** C7 (as amended), at the default flags: 256 x 256 pixels, 5 classes. *)
Lemma main_pred_classifies_each_pixel_witness :
  main_activation default_flags = tf_nn_softmax /\
  exists out : node,
    main_pred default_flags = Some out /\
    get_shape out = Some (256, 256, 5)%Z.
Proof.
  destruct (main_pred_classifies_each_pixel default_flags)
    as (Hsoftmax & _ & Hbuilt & _).
  split.
  - apply Hsoftmax. reflexivity.
  - destruct (Hbuilt 16%Z 16%Z eq_refl eq_refl) as (out & c & Hout & _ & Hs);
      try (simpl; lia).
    exists out. split; [exact Hout|exact Hs].
Defined.

(** C7 (as stated) fails: with [--height 100] the pooled heights are 50,
    25, 12 and 6; the third expanding step resizes a map of height 12 to
    height 24 and has to concatenate it with [conv3] of height 25, which
    TensorFlow rejects, so [main] has no network output at all. *)
Lemma main_pred_fails_for_height_100 :
  let flags := {| data_root := data_root default_flags;
                  train := train default_flags;
                  test := test default_flags;
                  epochs := 8; learning_rate := (1 # 1000)%Q;
                  batch_size := 16; channels := 5;
                  height := 100; w := 256;
                  logdir := "logdir"; ckdir := "models" |} in
  let net0 := Conv2D (SubScalar (DivScalar (main_X flags) (255 # 2)%Q) 1%Q)
                     3 (1, 1)%Z None pad_valid "color_space_adjust" in
  let conv1 := conv_block main_mode 1 tf_nn_relu net0 [8; 8]%Z in
  let conv2 := conv_block main_mode 2 tf_nn_relu (pooled 1 conv1)
                          [16; 16]%Z in
  let conv3 := conv_block main_mode 3 tf_nn_relu (pooled 2 conv2)
                          [32; 32]%Z in
  let conv4 := conv_block main_mode 4 tf_nn_relu (pooled 3 conv3)
                          [64; 64]%Z in
  let conv5 := conv_block main_mode 5 tf_nn_relu (pooled 4 conv4)
                          [128; 128]%Z in
  let conv6 := conv_block main_mode 6 tf_nn_relu
                          (skip_concat 6 conv5 conv4 6 16) [64; 64]%Z in
  get_shape conv3 = Some (25, 64, 32)%Z /\
  get_shape conv6 = Some (12, 32, 64)%Z /\
  get_shape (upsampled 7 conv6 12 32) = Some (24, 64, 64)%Z /\
  upsample_concat conv6 conv3 7 = None /\
  main_pred flags = None /\
  ~ (exists out : node,
        main_pred flags = Some out /\
        get_shape out = Some (height flags, w flags, channels flags)).
Proof.
  cbv zeta. repeat split; try (vm_compute; reflexivity).
  intros (out & Hout & _). vm_compute in Hout. discriminate Hout.
Qed.

(** ** Augmentation *)

Section AugmentationProperties.
Variable P : Type.

Lemma concat_row_split (r1 r2 r : list (list P)) :
  zip_strict (fun p q => Some (p ++ q)) r1 r2 = Some r ->
  Forall (fun q => length q = 1) r2 ->
  map (@removelast P) r = r1 /\
  map (fun px => skipn (length px - 1) px) r = r2.
Proof.
  revert r2 r. induction r1 as [|p r1 IH]; intros [|q r2] r Hz Hone;
    simpl in Hz; try discriminate.
  - injection Hz as <-. now split.
  - invert_bind Hz. injection Hz as <-.
    inversion Hone as [|q' r2' Hq Hr2]; subst.
    destruct (IH r2 a Ha Hr2) as [Himg Hmask].
    destruct q as [|x [|y q]]; try discriminate Hq.
    simpl. rewrite Himg, Hmask, removelast_last. split; [reflexivity|].
    f_equal. rewrite length_app. simpl.
    replace (length p + 1 - 1) with (length p) by lia.
    rewrite skipn_app, skipn_all, Nat.sub_diag. reflexivity.
Qed.

Lemma concat_row_total (r1 r2 : list (list P)) :
  length r1 = length r2 ->
  exists r, zip_strict (fun p q => Some (p ++ q)) r1 r2 = Some r.
Proof.
  revert r2. induction r1 as [|p r1 IH]; intros [|q r2] Hlen;
    simpl in Hlen; try discriminate.
  - now exists [].
  - destruct (IH r2) as [r Hr]; [lia|].
    simpl. rewrite Hr. simpl. eauto.
Qed.

Lemma concat_last_split (a b cat : image_t P) :
  concat_last a b = Some cat ->
  Forall (Forall (fun q => length q = 1)) b ->
  all_but_last_channel cat = a /\ last_channel cat = b.
Proof.
  unfold concat_last, all_but_last_channel, last_channel.
  revert b cat. induction a as [|r1 a IH]; intros [|r2 b] cat Hz Hone;
    simpl in Hz; try discriminate.
  - injection Hz as <-. now split.
  - invert_bind Hz. invert_bind Hz. injection Hz as <-.
    inversion Hone as [|r2' b' Hr2 Hb]; subst.
    destruct (concat_row_split r1 r2 a0 Ha Hr2) as [Hi Hm].
    destruct (IH b a1 Ha0 Hb) as [Himg Hmask].
    simpl. now rewrite Hi, Hm, Himg, Hmask.
Qed.

Lemma concat_last_total (h w c c' : nat) (a b : image_t P) :
  has_shape h w c a -> has_shape h w c' b ->
  exists cat, concat_last a b = Some cat.
Proof.
  unfold has_shape, concat_last. intros [Hha Hwa] [Hhb Hwb].
  revert h b Hha Hhb Hwb.
  induction Hwa as [|r1 a [Hr1 _] Ha IH]; intros h [|r2 b] Hha Hhb Hwb;
    simpl in *; try (subst h; discriminate).
  - now exists [].
  - inversion Hwb as [|r2' b' [Hr2 _] Hb]; subst.
    destruct (concat_row_total r1 r2) as [r Hr]; [congruence|].
    destruct (IH (length a) b eq_refl) as [cat Hcat];
      [congruence|assumption|].
    rewrite Hr. simpl. rewrite Hcat. simpl. eauto.
Qed.

Lemma has_shape_one_channel (h w : nat) (t : image_t P) :
  has_shape h w 1 t -> Forall (Forall (fun q => length q = 1)) t.
Proof.
  intros [_ Hrows]. induction Hrows as [|r t [_ Hr] _ IH]; constructor;
    assumption.
Qed.

Lemma slices_commute_with_flip (coin : bool) (t : image_t P) :
  all_but_last_channel (random_flip_up_down coin t)
  = random_flip_up_down coin (all_but_last_channel t) /\
  last_channel (random_flip_up_down coin t)
  = random_flip_up_down coin (last_channel t).
Proof.
  unfold all_but_last_channel, last_channel, random_flip_up_down,
    flip_up_down.
  destruct coin; [|now split].
  now rewrite !map_rev.
Qed.

Variable adjust_brightness : image_t P -> Q -> image_t P.
Variable adjust_hue : image_t P -> Q -> image_t P.

(** What [image_augmentation] returns on an image and a one-channel mask of
    the same height and width. *)
Lemma image_augmentation_value (h w c : nat) (image mask : image_t P)
      (d : draws) :
  has_shape h w c image -> has_shape h w 1 mask ->
  image_augmentation adjust_brightness adjust_hue image mask d
  = Some (adjust_hue
            (adjust_brightness
               (random_flip_up_down (coin_up_down d) image)
               (brightness_delta d))
            (hue_delta d),
          random_flip_up_down (coin_up_down d) mask).
Proof.
  intros Hi Hm.
  destruct (concat_last_total h w c 1 image mask Hi Hm) as [cat Hcat].
  destruct (concat_last_split image mask cat Hcat
              (has_shape_one_channel h w mask Hm)) as [Himg Hmask].
  destruct (slices_commute_with_flip (coin_up_down d) cat) as [Fi Fm].
  unfold image_augmentation. rewrite Hcat, obind_Some_l. cbv zeta.
  unfold random_brightness, random_hue.
  now rewrite Fi, Fm, Himg, Hmask.
Qed.

End AugmentationProperties.

(** C8.  The outcome of [image_augmentation] does not depend on the coin of
    the left-right flip: that flip is computed and overwritten.  On an
    image and a one-channel mask of one height and width the returned mask
    is the input mask, flipped up-down or not, and the returned image is the
    brightness- and hue-adjusted input image, flipped up-down or not; no
    row is ever reversed. *)
Theorem image_augmentation_discards_left_right_flip
        (P : Type) (adjust_brightness adjust_hue : image_t P -> Q -> image_t P)
        (image mask : image_t P) (d : draws) :
  (forall lr : bool,
      image_augmentation adjust_brightness adjust_hue image mask
        {| coin_left_right := lr; coin_up_down := coin_up_down d;
           brightness_delta := brightness_delta d;
           hue_delta := hue_delta d |}
      = image_augmentation adjust_brightness adjust_hue image mask d) /\
  (forall h w c : nat,
      has_shape h w c image -> has_shape h w 1 mask ->
      exists image' mask' : image_t P,
        image_augmentation adjust_brightness adjust_hue image mask d
        = Some (image', mask') /\
        mask' = (if coin_up_down d then flip_up_down mask else mask) /\
        image' = adjust_hue
                   (adjust_brightness
                      (if coin_up_down d then flip_up_down image else image)
                      (brightness_delta d))
                   (hue_delta d)).
Proof.
  split.
  - intros lr. reflexivity.
  - intros h w c Hi Hm.
    rewrite (image_augmentation_value P adjust_brightness adjust_hue
               h w c image mask d Hi Hm).
    do 2 eexists. split; [reflexivity|].
    unfold random_flip_up_down. split; reflexivity.
Qed.

(** C8, on a 1 x 2 image whose two pixels differ, with the left-right coin
    set and the up-down coin not set: the mask comes back unchanged. *)
Lemma image_augmentation_discards_left_right_flip_witness :
  let brighten := fun (t : image_t Q) (delta : Q) =>
                    map (map (map (Qplus delta))) t in
  let d := {| coin_left_right := true; coin_up_down := false;
              brightness_delta := (1 # 2)%Q; hue_delta := 0%Q |} in
  let image := [[[1; 2; 3]; [4; 5; 6]]]%Q in
  let mask := [[[0]; [255]]]%Q in
  exists image' : image_t Q,
    image_augmentation brighten (fun t _ => t) image mask d
    = Some (image', mask) /\
    flip_left_right mask <> mask.
Proof.
  intros brighten d image mask.
  destruct (image_augmentation_discards_left_right_flip Q brighten
              (fun t _ => t) image mask d) as [_ Hvalue].
  destruct (Hvalue 1 2 3) as (image' & mask' & Hrun & Hmask & _).
  - split; [reflexivity|]. repeat constructor.
  - split; [reflexivity|]. repeat constructor.
  - exists image'. split.
    + rewrite Hrun, Hmask. reflexivity.
    + discriminate.
Defined.

(** C9.  On an image and a one-channel mask of one height and width, one
    and the same flip - the identity or the up-down flip - is applied to
    the returned image and to the returned mask; brightness and hue are
    applied to the image only, so the returned mask is that flip of the
    input mask whatever the two adjustments and their random deltas are. *)
Theorem image_augmentation_keeps_mask_aligned
        (P : Type) (adjust_brightness adjust_hue : image_t P -> Q -> image_t P)
        (image mask : image_t P) (d : draws) (h w c : nat) :
  has_shape h w c image -> has_shape h w 1 mask ->
  exists flip : image_t P -> image_t P,
    (flip = (fun t => t) \/ flip = @flip_up_down P) /\
    image_augmentation adjust_brightness adjust_hue image mask d
    = Some (adjust_hue (adjust_brightness (flip image) (brightness_delta d))
                       (hue_delta d),
            flip mask) /\
    (forall (adjust_brightness' adjust_hue' : image_t P -> Q -> image_t P)
            (d' : draws),
        coin_up_down d' = coin_up_down d ->
        option_map snd
          (image_augmentation adjust_brightness' adjust_hue' image mask d')
        = Some (flip mask)).
Proof.
  intros Hi Hm. exists (random_flip_up_down (coin_up_down d)).
  split; [|split].
  - unfold random_flip_up_down. destruct (coin_up_down d); auto.
  - apply (image_augmentation_value P adjust_brightness adjust_hue
             h w c image mask d Hi Hm).
  - intros ab ah d' Hcoin.
    rewrite (image_augmentation_value P ab ah h w c image mask d' Hi Hm).
    simpl. now rewrite Hcoin.
Qed.

(** C9, on a 2 x 1 image with the up-down coin set. *)
Lemma image_augmentation_keeps_mask_aligned_witness :
  let brighten := fun (t : image_t Q) (delta : Q) =>
                    map (map (map (Qplus delta))) t in
  let d := {| coin_left_right := false; coin_up_down := true;
              brightness_delta := (1 # 2)%Q; hue_delta := 0%Q |} in
  let image := [[[1; 2; 3]]; [[4; 5; 6]]]%Q in
  let mask := [[[0]]; [[255]]]%Q in
  exists flip : image_t Q -> image_t Q,
    (flip = (fun t => t) \/ flip = @flip_up_down Q) /\
    image_augmentation brighten (fun t _ => t) image mask d
    = Some (brighten (flip image) (1 # 2)%Q, flip mask).
Proof.
  intros brighten d image mask.
  destruct (image_augmentation_keeps_mask_aligned Q brighten (fun t _ => t)
              image mask d 2 1 3)
    as (flip & Hflip & Hrun & _).
  - split; [reflexivity|]. repeat constructor.
  - split; [reflexivity|]. repeat constructor.
  - exists flip. split; [exact Hflip|exact Hrun].
Defined.

(** ** Reading image/mask pairs *)

Lemma default_of_empty_field (field : string) :
  (if is_empty field then EmptyString else field) = field.
Proof. now destruct field. Qed.

Lemma text_reader_skips_header (lines : list string) (k : nat) :
  text_reader_read 1 lines k = nth_error lines (S k).
Proof.
  unfold text_reader_read, text_line_records.
  destruct lines as [|header rest]; [now destruct k|reflexivity].
Qed.

(** C6.  The [k]-th record read from the CSV file is its line number
    [k + 1], the first line being skipped.  A line that does not have exactly
    two fields is an error.  For a line with the two fields [a] and [b]
    (an empty field stays the empty string), the image is read from
    [data_root ++ a] and decoded with 3 channels, the mask is read from
    [data_root ++ b] and decoded with 1 channel, both are cast to float, and
    with [augmentation] they go through [image_augmentation]. *)
Theorem get_image_mask_reads_csv_pairs
        (P file U : Type)
        (adjust_brightness adjust_hue : image_t P -> Q -> image_t P)
        (read_file : string -> option file)
        (img_decoder : file -> nat -> option (list (list (list U))))
        (to_float32 : U -> P) (split_fields : string -> list string)
        (lines : list string) (k : nat) (data_root : string)
        (augmentation : bool) (d : draws) :
  let run := get_image_mask adjust_brightness adjust_hue read_file
               img_decoder to_float32 split_fields lines k data_root
               augmentation d in
  text_reader_read 1 lines k = nth_error lines (S k) /\
  (nth_error lines (S k) = None -> run = None) /\
  (forall line : string,
      nth_error lines (S k) = Some line ->
      length (split_fields line) <> 2 -> run = None) /\
  (forall line a b : string,
      nth_error lines (S k) = Some line ->
      split_fields line = [a; b] ->
      decode_csv split_fields line [""; ""]%string = Some [a; b] /\
      run =
      match read_file (data_root ++ a)%string,
            read_file (data_root ++ b)%string with
      | Some image_file, Some mask_file =>
          match img_decoder image_file 3, img_decoder mask_file 1 with
          | Some image, Some mask =>
              if augmentation
              then image_augmentation adjust_brightness adjust_hue
                     (tf_cast to_float32 image) (tf_cast to_float32 mask) d
              else Some (tf_cast to_float32 image, tf_cast to_float32 mask)
          | _, _ => None
          end
      | _, _ => None
      end).
Proof.
  cbv zeta. split; [apply text_reader_skips_header|].
  unfold get_image_mask. rewrite text_reader_skips_header.
  split; [|split].
  - now intros ->.
  - intros line -> Hlen. rewrite obind_Some_l. unfold decode_csv.
    apply Nat.eqb_neq in Hlen. simpl length. now rewrite Hlen.
  - intros line a b -> Hsplit.
    assert (Hcsv : decode_csv split_fields line [""; ""]%string
                   = Some [a; b]).
    { unfold decode_csv. rewrite Hsplit. simpl.
      now rewrite !default_of_empty_field. }
    split; [exact Hcsv|].
    rewrite obind_Some_l, Hcsv, !obind_Some_l.
    destruct (read_file (data_root ++ a)%string) as [image_file|];
      [|reflexivity].
    destruct (read_file (data_root ++ b)%string) as [mask_file|];
      [|reflexivity].
    rewrite !obind_Some_l.
    destruct (img_decoder image_file 3) as [image|]; simpl.
    + destruct (img_decoder mask_file 1) as [mask|]; reflexivity.
    + destruct (img_decoder mask_file 1); reflexivity.
Qed.

(** C6, on a three-line file.  The file system maps a path to itself and
    the decoder returns a single pixel whose components all carry the bytes
    it was given, so the result shows which path was read with how many
    channels: the second record is the third line. *)
Lemma get_image_mask_reads_csv_pairs_witness :
  let lines := ["image,mask"; "a.png,a_mask.png"; "b.png,b_mask.png"]%string in
  get_image_mask (fun (t : image_t string) (_ : Q) => t) (fun t _ => t)
    (fun path => Some path) (fun bytes n => Some [[repeat bytes n]])
    (fun u : string => u) split_on_comma lines 1 "data/" false
    {| coin_left_right := false; coin_up_down := false;
       brightness_delta := 0%Q; hue_delta := 0%Q |}
  = Some ([[["data/b.png"; "data/b.png"; "data/b.png"]]]%string,
          [[["data/b_mask.png"]]]%string).
Proof.
  intros lines.
  destruct (get_image_mask_reads_csv_pairs string string string
              (fun t _ => t) (fun t _ => t)
              (fun path => Some path) (fun bytes n => Some [[repeat bytes n]])
              (fun u : string => u) split_on_comma lines 1 "data/" false
              {| coin_left_right := false; coin_up_down := false;
                 brightness_delta := 0%Q; hue_delta := 0%Q |})
    as (_ & _ & _ & Hpair).
  destruct (Hpair "b.png,b_mask.png"%string "b.png"%string
              "b_mask.png"%string eq_refl eq_refl) as [_ Hrun].
  rewrite Hrun. reflexivity.
Defined.

(** ** The checkpoint directory *)

(** One case distinction on the next answer of the environment. *)
Ltac case_environment :=
  match goal with
  | |- context [raises ?en ?tr ?ev] => destruct (raises en tr ev) eqn:?
  | |- context [path_exists ?en ?d] => destruct (path_exists en d) eqn:?
  | |- context [checkpoint_exists ?en ?d] =>
      destruct (checkpoint_exists en d) eqn:?
  | |- context [latest_checkpoint ?en ?d] =>
      destruct (latest_checkpoint en d) eqn:?
  | |- context [is_FileNotFoundError ?e] =>
      destruct (is_FileNotFoundError e) eqn:?
  | |- context [is_OSError ?e] => destruct (is_OSError e) eqn:?
  end.

Lemma main_checkpoint_first_raise (flags : flags_t) (en : env) :
  match first_raise (trace_of (main_checkpoint flags) en) with
  | None => result_of (main_checkpoint flags) en = inr tt
  | Some (ev, e, rest) =>
      if is_rmdir ev && (is_FileNotFoundError e || is_OSError e)
      then exists o, rest = [(ev_mkdir (ckdir flags), o)] /\
                     result_of (main_checkpoint flags) en = outcome o
      else rest = [] /\ result_of (main_checkpoint flags) en = inl e
  end.
Proof.
  unfold trace_of, result_of, main_checkpoint, query, mbind, call, ret,
    try_except, initial_state, log.
  cbn [trace coord threads app fst snd].
  repeat (case_environment;
          cbn [trace coord threads app fst snd find_handler first_raise
               is_rmdir andb orb outcome]).
  all: try (split; reflexivity).
  all: try (eexists; split; reflexivity).
  all: congruence.
Qed.

Ltac case_raises_rmdir :=
  match goal with
  | |- context [raises ?e ?tr (ev_rmdir ?d)] =>
      let Hrm := fresh "Hrm" in
      destruct (raises e tr (ev_rmdir d)) as [e0|] eqn:Hrm
  end.

Ltac case_raises_mkdir :=
  match goal with
  | |- context [raises ?e ?tr (ev_mkdir ?d)] =>
      destruct (raises e tr (ev_mkdir d))
  end.

(** Membership of a returned [mkdir] in a trace that is written out. *)
Ltac decide_created :=
  unfold directory_created; cbn [app returned map In];
  split;
  [ intros Hin;
    repeat (destruct Hin as [Hin|Hin];
            [try discriminate Hin; try reflexivity; try (now injection Hin)|]);
    try contradiction
  | intros Hnone; try discriminate Hnone; try (rewrite Hnone); tauto ].

(** C5 (as amended).  The checkpoint branch of [main], for every behaviour
    of the file system and of TensorFlow.

    First, the only exception the branch handles is a [FileNotFoundError]
    or other [OSError] of [os.rmdir]: the first call that raises is the
    last call of the branch and its exception is the outcome of the branch,
    unless it is such an error of [rmdir], after which exactly one more call
    is made, [os.mkdir] on the checkpoint directory, and the outcome of that
    call - an exception included - is the outcome of the branch.  So an
    exception of the [Saver], of the existence checks, of
    [latest_checkpoint], of [print], of [restore] or of [mkdir] is never
    handled.

    Second, when the directory does not exist or holds no checkpoint and
    the checks before it have returned, [os.rmdir] is attempted; when it
    returns, or raises [FileNotFoundError] or any other [OSError],
    [os.mkdir] is called next, and the directory is created exactly when
    that call returns; any other exception of [rmdir] ends the branch with
    no [mkdir].

    Third, when the directory holds a checkpoint, neither [rmdir] nor
    [mkdir] is called: [latest_checkpoint] is asked and its answer, when
    there is one, is printed and restored. *)
Theorem main_checkpoint_handles_only_rmdir_errors
        (flags : flags_t) (en : env) :
  let dir := ckdir flags in
  let run := main_checkpoint flags in
  match first_raise (trace_of run en) with
  | None => result_of run en = inr tt
  | Some (ev, e, rest) =>
      if is_rmdir ev && (is_FileNotFoundError e || is_OSError e)
      then exists o, rest = [(ev_mkdir dir, o)] /\
                     result_of run en = outcome o
      else rest = [] /\ result_of run en = inl e
  end /\
  (path_exists en dir && checkpoint_exists en dir = false ->
   let checks :=
     ev_Saver :: ev_path_exists dir
       :: (if path_exists en dir then [ev_checkpoint_exists dir] else []) in
   returns_in_sequence en [] checks ->
   let o_rmdir := raises en (returned checks) (ev_rmdir dir) in
   let after_rmdir := returned checks ++ [(ev_rmdir dir, o_rmdir)] in
   let o_mkdir := raises en after_rmdir (ev_mkdir dir) in
   (o_rmdir = None \/
    (exists e, o_rmdir = Some e /\
               (is_FileNotFoundError e || is_OSError e = true)) ->
    trace_of run en = after_rmdir ++ [(ev_mkdir dir, o_mkdir)] /\
    result_of run en = outcome o_mkdir /\
    (directory_created flags (trace_of run en) <-> o_mkdir = None)) /\
   (forall e, o_rmdir = Some e ->
              is_FileNotFoundError e || is_OSError e = false ->
              trace_of run en = after_rmdir /\ result_of run en = inl e /\
              ~ directory_created flags (trace_of run en))) /\
  (path_exists en dir && checkpoint_exists en dir = true ->
   let checks :=
     [ev_Saver; ev_path_exists dir; ev_checkpoint_exists dir;
      ev_latest_checkpoint dir] in
   returns_in_sequence en [] checks ->
   match latest_checkpoint en dir with
   | Some c =>
       let say := ev_print ("restoring from" ++ tab ++ c)%string in
       raises en (returned checks) say = None ->
       let o_restore := raises en (returned (checks ++ [say]))
                               (ev_restore c) in
       trace_of run en
       = returned (checks ++ [say]) ++ [(ev_restore c, o_restore)] /\
       result_of run en = outcome o_restore
   | None => trace_of run en = returned checks /\ result_of run en = inr tt
   end).
Proof.
  cbv zeta. split; [apply main_checkpoint_first_raise|].
  unfold trace_of, result_of, main_checkpoint, query, mbind, call, ret,
    try_except, initial_state, log.
  cbn [trace coord threads app]. split.
  - intros Hcond Hseq.
    destruct (path_exists en (ckdir flags)) eqn:Hpath;
      cbn [andb] in Hcond;
      cbn [returns_in_sequence app] in Hseq;
      cbn [returned map app];
      [destruct Hseq as (HS & HP & HC & _)|destruct Hseq as (HS & HP & _)];
      rewrite HS; cbn [trace coord threads app]; rewrite HP;
      cbn [trace coord threads app]; try rewrite HC;
      cbn [trace coord threads app fst snd]; try rewrite Hcond;
      cbn [trace coord threads app fst snd].
    all: case_raises_rmdir.
    all: cbn [trace coord threads app fst snd find_handler].
    all: split; [intros Hcaught|intros e' He' Hother].
    all: try discriminate He'.
    all: try (injection He' as <-;
              apply orb_false_iff in Hother as [Hf Ho]; rewrite Hf, Ho;
              cbn [trace fst snd]; split; [reflexivity|];
              split; [reflexivity|];
              unfold directory_created; cbn [In]; intros Hin;
              repeat (destruct Hin as [Hin|Hin]; [discriminate Hin|]);
              exact Hin).
    all: try (destruct Hcaught as [Hnone|(e' & He' & Hcls)];
              [discriminate Hnone|injection He' as <-];
              destruct (is_FileNotFoundError e0);
              [|cbn [orb] in Hcls; rewrite Hcls]).
    all: cbn [trace coord threads app fst snd].
    all: case_raises_mkdir.
    all: cbn [trace coord threads app fst snd outcome].
    all: split; [reflexivity|]; split; [reflexivity|]; decide_created.
  - intros Hcond (HS & HP & HC & HL & _).
    apply andb_true_iff in Hcond as [Hpath Hck].
    cbn [app] in HP, HC, HL.
    rewrite HS. cbn [trace coord threads app]. rewrite HP.
    cbn [trace coord threads app]. rewrite Hpath.
    cbn [trace coord threads app]. rewrite HC.
    cbn [trace coord threads app fst snd]. rewrite Hck.
    cbn [trace coord threads app fst snd]. rewrite HL.
    cbn [trace coord threads app fst snd].
    destruct (latest_checkpoint en (ckdir flags)) as [c|].
    + cbn [returned map app trace coord threads fst snd]. intros Hsay.
      match goal with
      | |- context [raises en ?tr (ev_print ?t)] =>
          replace (raises en tr (ev_print t)) with (@None exn)
            by (symmetry; exact Hsay)
      end.
      cbn [trace coord threads app fst snd].
      match goal with
      | |- context [raises en ?tr (ev_restore c)] =>
          destruct (raises en tr (ev_restore c))
      end; split; reflexivity.
    + split; reflexivity.
Qed.

(** C5 (as amended), with no checkpoint directory on disk: [rmdir] raises
    [FileNotFoundError], which is dropped, and the directory is created. *)
Lemma main_checkpoint_handles_only_rmdir_errors_witness :
  trace_of (main_checkpoint default_flags) env_fresh_directory
  = [(ev_Saver, None); (ev_path_exists "models", None);
     (ev_rmdir "models", Some FileNotFoundError);
     (ev_mkdir "models", None)] /\
  result_of (main_checkpoint default_flags) env_fresh_directory = inr tt /\
  directory_created default_flags
    (trace_of (main_checkpoint default_flags) env_fresh_directory).
Proof.
  destruct (main_checkpoint_handles_only_rmdir_errors
              default_flags env_fresh_directory) as (_ & Helse & _).
  destruct (Helse eq_refl) as [Hcaught _]; [repeat split|].
  destruct Hcaught as (Htrace & Hresult & Hcreated).
  - right. exists FileNotFoundError. split; reflexivity.
  - split; [exact Htrace|]. split; [exact Hresult|].
    apply Hcreated. reflexivity.
Defined.

(** C5 (as stated) fails.  The script is started with
    [--ckdir runs/models] and there is no directory [runs].  The checkpoint
    directory does not exist, so the [else] branch is taken; [os.rmdir]
    raises [FileNotFoundError], which is caught and dropped; [os.mkdir]
    then raises [FileNotFoundError] as well, because the parent is missing.
    The directory is not created, and [main] ends with that exception. *)
Lemma directory_is_not_created_when_mkdir_fails :
  path_exists env_missing_parent (ckdir flags_nested_ckdir) = false /\
  trace_of (main_checkpoint flags_nested_ckdir) env_missing_parent
  = [(ev_Saver, None); (ev_path_exists "runs/models", None);
     (ev_rmdir "runs/models", Some FileNotFoundError);
     (ev_mkdir "runs/models", Some FileNotFoundError)] /\
  result_of (main_checkpoint flags_nested_ckdir) env_missing_parent
  = inl FileNotFoundError /\
  ~ directory_created flags_nested_ckdir
      (trace_of (main_checkpoint flags_nested_ckdir) env_missing_parent).
Proof.
  split; [reflexivity|]. split; [reflexivity|]. split; [reflexivity|].
  unfold directory_created. cbn. intros Hin.
  repeat (destruct Hin as [Hin|Hin]; [discriminate Hin|]). exact Hin.
Qed.

(** The same with the default flags when the directory [models] exists
    and holds files but no checkpoint: [os.rmdir] raises [OSError]
    (directory not empty), which is dropped, and [os.mkdir] raises
    [FileExistsError], with which [main] ends. *)
Lemma mkdir_fails_on_a_directory_without_checkpoint :
  trace_of (main_checkpoint default_flags) env_directory_not_empty
  = [(ev_Saver, None); (ev_path_exists "models", None);
     (ev_checkpoint_exists "models", None);
     (ev_rmdir "models", Some OSError);
     (ev_mkdir "models", Some FileExistsError)] /\
  result_of (main_checkpoint default_flags) env_directory_not_empty
  = inl FileExistsError.
Proof. split; reflexivity. Qed.

(** ** The training block *)


Lemma call_value (ev : event) (en : env) (s : state) :
  call ev en s
  = (outcome (raises en (trace s) ev), log ev (raises en (trace s) ev) s).
Proof. unfold call. now destruct (raises en (trace s) ev). Qed.







Lemma bind_call_returns {B : Type} (ev : event) (k : unit -> M B)
      (en : env) (s : state) :
  raises en (trace s) ev = None ->
  mbind (call ev) k en s = k tt en (log ev None s).
Proof. intros Hr. unfold mbind, call. now rewrite Hr. Qed.

Lemma bind_read_coord {B : Type} (k : unit -> M B) (en : env) (s : state) :
  coord s = true -> mbind read_coord k en s = k tt en s.
Proof. intros Hc. unfold mbind, read_coord. now rewrite Hc. Qed.

Lemma bind_read_threads {B : Type} (k : unit -> M B) (en : env) (s : state) :
  threads s = true -> mbind read_threads k en s = k tt en s.
Proof. intros Ht. unfold mbind, read_threads. now rewrite Ht. Qed.



(** The state in which the epoch loop starts when the set-up returns. *)
Lemma try_body_after_setup (flags : flags_t) (n_train n_test : nat)
      (en : env) (s : state) :
  (forall tr, raises en tr ev_get_global_step = None) ->
  (forall tr, raises en tr ev_Coordinator = None) ->
  (forall tr, raises en tr ev_start_queue_runners = None) ->
  try_body flags n_train n_test en s
  = (_ <~ epoch_loop flags n_train n_test ;;
     call (ev_save (checkpoint_path flags)))
      en {| trace := ((trace s ++ [(ev_get_global_step, None)])
                        ++ [(ev_Coordinator, None)])
                       ++ [(ev_start_queue_runners, None)];
            coord := true; threads := true |}.
Proof.
  intros Hstep Hcoord Hrun. unfold try_body.
  rewrite bind_call_returns by apply Hstep.
  rewrite bind_call_returns by apply Hcoord.
  unfold mbind at 1, bind_coord at 1.
  rewrite bind_call_returns by apply Hrun.
  unfold mbind at 1, bind_threads at 1.
  reflexivity.
Qed.






(** The same clause when an exception leaves the block before [threads]
    is assigned: reading the unbound local raises, and neither the join nor
    the save is reached. *)
Lemma unbound_threads_skip_the_save :
  let en := {| path_exists := fun _ => true;
               checkpoint_exists := fun _ => true;
               latest_checkpoint := fun _ => None;
               raises := fun _ ev => match ev with
                                     | ev_start_queue_runners =>
                                         Some RuntimeError
                                     | _ => None
                                     end |} in
  trace_of (main_training default_flags 2 2) en
  = [(ev_get_global_step, None); (ev_Coordinator, None);
     (ev_start_queue_runners, Some RuntimeError); (ev_request_stop, None)] /\
  result_of (main_training default_flags 2 2) en = inl UnboundLocalError.
Proof. split; vm_compute; reflexivity. Qed.

(* ===================================================================== *)
(** * Part III.  Further properties of the code                           *)
(* ===================================================================== *)

(** ** Shapes along the network *)

Lemma pool_size_half (h : Z) : ((h - 2) / 2 + 1 = h / 2)%Z.
Proof.
  replace (h - 2)%Z with (h + (-1) * 2)%Z by lia.
  rewrite Z.div_add by lia. lia.
Qed.

(** X1.  A block of [conv_conv_pool] keeps the height and the width of its
    input and has as many channels as its last filter count (the channels
    of the input when the filter list is empty).  With pooling the second
    result has half the height and half the width, rounded down, and the
    block cannot be built on a map that is less than 2 high or wide. *)
Theorem conv_conv_pool_shapes
        (input_ training : node) (n_filters : list Z) (name : nat)
        (activation : activation_fn) (h w c : Z) :
  get_shape input_ = Some (h, w, c) ->
  Forall (fun F => (0 <= F)%Z) n_filters ->
  (exists net,
      conv_conv_pool input_ n_filters training name false activation
      = Some (Net net) /\
      get_shape net = Some (h, w, last n_filters c)) /\
  ((2 <= h)%Z /\ (2 <= w)%Z ->
   exists net pool,
     conv_conv_pool input_ n_filters training name true activation
     = Some (NetPool net pool) /\
     get_shape net = Some (h, w, last n_filters c) /\
     get_shape pool = Some (h / 2, w / 2, last n_filters c)%Z) /\
  ((h < 2)%Z \/ (w < 2)%Z ->
   conv_conv_pool input_ n_filters training name true activation = None).
Proof.
  intros Hs Hall.
  destruct (conv_loop_ok training ("layer" ++ str name)%string name
              activation n_filters input_ 0 h w c Hs Hall)
    as [Hloop Hshape].
  unfold conv_conv_pool. cbv zeta. rewrite Hloop.
  split; [|split]; rewrite obind_Some_l.
  - eexists. split; [reflexivity|exact Hshape].
  - intros [Hh Hw]. change (negb true) with false. cbv iota.
    unfold tf_layers_max_pooling2d, tf_op. cbn [get_shape].
    rewrite Hshape.
    apply Z.leb_le in Hh, Hw. rewrite Hh, Hw. cbn [andb obind].
    do 2 eexists. split; [reflexivity|]. split; [exact Hshape|].
    cbn [get_shape]. rewrite Hshape, Hh, Hw. cbn [andb].
    now rewrite !pool_size_half.
  - intros Hsmall. change (negb true) with false. cbv iota.
    unfold tf_layers_max_pooling2d, tf_op. cbn [get_shape].
    rewrite Hshape.
    replace ((2 <=? h) && (2 <=? w))%Z with false; [reflexivity|].
    symmetry. apply andb_false_iff.
    destruct Hsmall as [Hh|Hw]; [left|right]; apply Z.leb_gt; assumption.
Qed.

(** X1, on a 5 x 7 input: the pooled map is 2 x 3. *)
Lemma conv_conv_pool_shapes_witness :
  exists net pool,
    conv_conv_pool (Placeholder tf_float32 (Some (5, 7, 3)%Z) "X")
                   [8; 8]%Z main_mode 1 true tf_nn_relu
    = Some (NetPool net pool) /\
    get_shape net = Some (5, 7, 8)%Z /\
    get_shape pool = Some (2, 3, 8)%Z.
Proof.
  destruct (conv_conv_pool_shapes
              (Placeholder tf_float32 (Some (5, 7, 3)%Z) "X") main_mode
              [8; 8]%Z 1 tf_nn_relu 5 7 3 eq_refl)
    as (_ & Hpool & _).
  - repeat constructor; discriminate.
  - apply Hpool. split; discriminate.
Defined.

(** X2.  [upsample_concat] builds its result exactly when [inputA] has a
    static shape and [input_B] is twice as high and twice as wide; the
    result then has that doubled height and width and the channels of both
    inputs. *)
Theorem upsample_concat_shapes (inputA input_B : node) (name : nat) :
  (forall up,
      upsample_concat inputA input_B name = Some up ->
      exists h w c c2 : Z,
        get_shape inputA = Some (h, w, c) /\
        get_shape input_B = Some (2 * h, 2 * w, c2)%Z /\
        get_shape up = Some (2 * h, 2 * w, c + c2)%Z) /\
  (forall h w c c2 : Z,
      get_shape inputA = Some (h, w, c) ->
      get_shape input_B = Some (2 * h, 2 * w, c2)%Z ->
      exists up,
        upsample_concat inputA input_B name = Some up /\
        get_shape up = Some (2 * h, 2 * w, c + c2)%Z).
Proof.
  split.
  - intros up Hup.
    destruct (upsample_concat_sound inputA input_B up name Hup)
      as (h & w & c & c2 & HA & HB & ->).
    destruct (upsample_concat_ok inputA input_B name h w c c2 HA HB)
      as [_ Hshape].
    exists h, w, c, c2. rewrite HB, Hshape.
    repeat split; try assumption; do 3 f_equal; lia.
  - intros h w c c2 HA HB.
    assert (HB' : get_shape input_B = Some (h * 2, w * 2, c2)%Z).
    { rewrite HB. do 3 f_equal; lia. }
    destruct (upsample_concat_ok inputA input_B name h w c c2 HA HB')
      as [Hup Hshape].
    eexists. split; [exact Hup|].
    rewrite Hshape. do 3 f_equal; lia.
Qed.

(** X2, with a 3 x 4 map of 128 channels and a 6 x 8 map of 64 channels. *)
Lemma upsample_concat_shapes_witness :
  exists up,
    upsample_concat (Placeholder tf_float32 (Some (3, 4, 128)%Z) "A")
                    (Placeholder tf_float32 (Some (6, 8, 64)%Z) "B") 6
    = Some up /\
    get_shape up = Some (6, 8, 192)%Z.
Proof.
  destruct (upsample_concat_shapes
              (Placeholder tf_float32 (Some (3, 4, 128)%Z) "A")
              (Placeholder tf_float32 (Some (6, 8, 64)%Z) "B") 6)
    as [_ Hbuilt].
  exact (Hbuilt 3%Z 4%Z 128%Z 64%Z eq_refl eq_refl).
Defined.

(** The shapes of every stage, with the sizes written as the pooling and
    the upsampling produce them. *)
Lemma make_unet_stages (X training : node) (a b cx : Z) :
  get_shape X = Some (a * 2 * 2 * 2 * 2, b * 2 * 2 * 2 * 2, cx)%Z ->
  (1 <= a)%Z -> (1 <= b)%Z ->
  let net0 := Conv2D (SubScalar (DivScalar X (255 # 2)%Q) 1%Q) 3 (1, 1)%Z
                     None pad_valid "color_space_adjust" in
  let conv1 := conv_block training 1 tf_nn_relu net0 [8; 8]%Z in
  let conv2 := conv_block training 2 tf_nn_relu (pooled 1 conv1)
                          [16; 16]%Z in
  let conv3 := conv_block training 3 tf_nn_relu (pooled 2 conv2)
                          [32; 32]%Z in
  let conv4 := conv_block training 4 tf_nn_relu (pooled 3 conv3)
                          [64; 64]%Z in
  let conv5 := conv_block training 5 tf_nn_relu (pooled 4 conv4)
                          [128; 128]%Z in
  let up6 := skip_concat 6 conv5 conv4 a b in
  let conv6 := conv_block training 6 tf_nn_relu up6 [64; 64]%Z in
  let up7 := skip_concat 7 conv6 conv3 (a * 2) (b * 2) in
  let conv7 := conv_block training 7 tf_nn_relu up7 [32; 32]%Z in
  let up8 := skip_concat 8 conv7 conv2 (a * 2 * 2) (b * 2 * 2) in
  let conv8 := conv_block training 8 tf_nn_relu up8 [16; 16]%Z in
  let up9 := skip_concat 9 conv8 conv1 (a * 2 * 2 * 2) (b * 2 * 2 * 2) in
  let conv9 := conv_block training 9 tf_nn_relu up9 [8; 8]%Z in
  (get_shape conv1 = Some (a * 2 * 2 * 2 * 2, b * 2 * 2 * 2 * 2, 8) /\
   get_shape conv2 = Some (a * 2 * 2 * 2, b * 2 * 2 * 2, 16) /\
   get_shape conv3 = Some (a * 2 * 2, b * 2 * 2, 32) /\
   get_shape conv4 = Some (a * 2, b * 2, 64) /\
   get_shape conv5 = Some (a, b, 128) /\
   get_shape up6 = Some (a * 2, b * 2, 128 + 64) /\
   get_shape conv6 = Some (a * 2, b * 2, 64) /\
   get_shape up7 = Some (a * 2 * 2, b * 2 * 2, 64 + 32) /\
   get_shape conv7 = Some (a * 2 * 2, b * 2 * 2, 32) /\
   get_shape up8 = Some (a * 2 * 2 * 2, b * 2 * 2 * 2, 32 + 16) /\
   get_shape conv8 = Some (a * 2 * 2 * 2, b * 2 * 2 * 2, 16) /\
   get_shape up9
   = Some (a * 2 * 2 * 2 * 2, b * 2 * 2 * 2 * 2, 16 + 8) /\
   get_shape conv9 = Some (a * 2 * 2 * 2 * 2, b * 2 * 2 * 2 * 2, 8))%Z /\
  (forall (activation : activation_fn) (classes : Z),
      (0 <= classes)%Z ->
      make_unet X training activation classes
      = Some (Conv2D conv9 classes (1, 1)%Z (Some activation) pad_same
                     "final")).
Proof.
  intros HX Ha Hb. cbv zeta.
  set (net0 := Conv2D (SubScalar (DivScalar X (255 # 2)%Q) 1%Q) 3 (1, 1)%Z
                      None pad_valid "color_space_adjust").
  assert (H0 : get_shape net0
               = Some (a * 2 * 2 * 2 * 2, b * 2 * 2 * 2 * 2, 3)%Z).
  { unfold net0. cbn [get_shape]. rewrite HX.
    replace (1 <=? a * 2 * 2 * 2 * 2)%Z with true
      by (symmetry; apply Z.leb_le; lia).
    replace (1 <=? b * 2 * 2 * 2 * 2)%Z with true
      by (symmetry; apply Z.leb_le; lia).
    cbn [andb Z.ltb Z.compare]. do 3 f_equal; lia. }
  destruct (pooled_block_ok net0 training 8 1 _ _ _ H0) as (E1 & S1 & P1);
    try lia.
  destruct (pooled_block_ok _ training 16 2 _ _ _ P1) as (E2 & S2 & P2);
    try lia.
  destruct (pooled_block_ok _ training 32 3 _ _ _ P2) as (E3 & S3 & P3);
    try lia.
  destruct (pooled_block_ok _ training 64 4 _ _ _ P3) as (E4 & S4 & P4);
    try lia.
  destruct (plain_block_ok _ training 128 5 _ _ _ P4) as (E5 & S5);
    try lia.
  destruct (upsample_concat_ok _ _ 6 _ _ _ _ S5 S4) as (U6 & T6).
  destruct (plain_block_ok _ training 64 6 _ _ _ T6) as (E6 & S6); try lia.
  destruct (upsample_concat_ok _ _ 7 _ _ _ _ S6 S3) as (U7 & T7).
  destruct (plain_block_ok _ training 32 7 _ _ _ T7) as (E7 & S7); try lia.
  destruct (upsample_concat_ok _ _ 8 _ _ _ _ S7 S2) as (U8 & T8).
  destruct (plain_block_ok _ training 16 8 _ _ _ T8) as (E8 & S8); try lia.
  destruct (upsample_concat_ok _ _ 9 _ _ _ _ S8 S1) as (U9 & T9).
  destruct (plain_block_ok _ training 8 9 _ _ _ T9) as (E9 & S9); try lia.
  split.
  - repeat split; assumption.
  - intros activation classes Hc. unfold make_unet.
    rewrite (tf_op_ok (DivScalar X (255 # 2)%Q) _ HX), obind_Some_l.
    rewrite (tf_op_ok (SubScalar (DivScalar X (255 # 2)%Q) 1%Q) _ HX),
      obind_Some_l.
    unfold tf_layers_conv2d at 1. fold net0.
    rewrite (tf_op_ok net0 _ H0), obind_Some_l.
    rewrite E1, obind_Some_l, E2, obind_Some_l, E3, obind_Some_l,
      E4, obind_Some_l, E5, obind_Some_l.
    rewrite U6, obind_Some_l, E6, obind_Some_l.
    rewrite U7, obind_Some_l, E7, obind_Some_l.
    rewrite U8, obind_Some_l, E8, obind_Some_l.
    rewrite U9, obind_Some_l, E9, obind_Some_l.
    unfold tf_layers_conv2d, tf_op. cbn [get_shape]. rewrite S9.
    destruct (classes <? 0)%Z eqn:Hneg; [apply Z.ltb_lt in Hneg; lia|].
    reflexivity.
Qed.

(** X3.  On an input of height [16a] and width [16b] the stages of the
    network have these shapes: the contracting blocks have 8, 16, 32, 64 and
    128 channels at 1, 1/2, 1/4, 1/8 and 1/16 of the input size; each
    expanding step doubles the size and, by the concatenation, has the
    channels of both its inputs (192, 96, 48, 24) before its block brings
    them down to 64, 32, 16 and 8; and [make_unet] returns the 1x1
    convolution of the last block. *)
Theorem make_unet_stage_shapes (X training : node) (a b cx : Z) :
  get_shape X = Some (16 * a, 16 * b, cx)%Z ->
  (1 <= a)%Z -> (1 <= b)%Z ->
  let net0 := Conv2D (SubScalar (DivScalar X (255 # 2)%Q) 1%Q) 3 (1, 1)%Z
                     None pad_valid "color_space_adjust" in
  let conv1 := conv_block training 1 tf_nn_relu net0 [8; 8]%Z in
  let conv2 := conv_block training 2 tf_nn_relu (pooled 1 conv1)
                          [16; 16]%Z in
  let conv3 := conv_block training 3 tf_nn_relu (pooled 2 conv2)
                          [32; 32]%Z in
  let conv4 := conv_block training 4 tf_nn_relu (pooled 3 conv3)
                          [64; 64]%Z in
  let conv5 := conv_block training 5 tf_nn_relu (pooled 4 conv4)
                          [128; 128]%Z in
  let up6 := skip_concat 6 conv5 conv4 a b in
  let conv6 := conv_block training 6 tf_nn_relu up6 [64; 64]%Z in
  let up7 := skip_concat 7 conv6 conv3 (2 * a) (2 * b) in
  let conv7 := conv_block training 7 tf_nn_relu up7 [32; 32]%Z in
  let up8 := skip_concat 8 conv7 conv2 (4 * a) (4 * b) in
  let conv8 := conv_block training 8 tf_nn_relu up8 [16; 16]%Z in
  let up9 := skip_concat 9 conv8 conv1 (8 * a) (8 * b) in
  let conv9 := conv_block training 9 tf_nn_relu up9 [8; 8]%Z in
  (get_shape conv1 = Some (16 * a, 16 * b, 8) /\
   get_shape conv2 = Some (8 * a, 8 * b, 16) /\
   get_shape conv3 = Some (4 * a, 4 * b, 32) /\
   get_shape conv4 = Some (2 * a, 2 * b, 64) /\
   get_shape conv5 = Some (a, b, 128) /\
   get_shape up6 = Some (2 * a, 2 * b, 192) /\
   get_shape conv6 = Some (2 * a, 2 * b, 64) /\
   get_shape up7 = Some (4 * a, 4 * b, 96) /\
   get_shape conv7 = Some (4 * a, 4 * b, 32) /\
   get_shape up8 = Some (8 * a, 8 * b, 48) /\
   get_shape conv8 = Some (8 * a, 8 * b, 16) /\
   get_shape up9 = Some (16 * a, 16 * b, 24) /\
   get_shape conv9 = Some (16 * a, 16 * b, 8))%Z /\
  (forall (activation : activation_fn) (classes : Z),
      (0 <= classes)%Z ->
      make_unet X training activation classes
      = Some (Conv2D conv9 classes (1, 1)%Z (Some activation) pad_same
                     "final")).
Proof.
  intros HX Ha Hb.
  replace (16 * a)%Z with (a * 2 * 2 * 2 * 2)%Z in * by lia.
  replace (16 * b)%Z with (b * 2 * 2 * 2 * 2)%Z in * by lia.
  replace (8 * a)%Z with (a * 2 * 2 * 2)%Z by lia.
  replace (8 * b)%Z with (b * 2 * 2 * 2)%Z by lia.
  replace (4 * a)%Z with (a * 2 * 2)%Z by lia.
  replace (4 * b)%Z with (b * 2 * 2)%Z by lia.
  replace (2 * a)%Z with (a * 2)%Z by lia.
  replace (2 * b)%Z with (b * 2)%Z by lia.
  exact (make_unet_stages X training a b cx HX Ha Hb).
Qed.

(** X3, on a 32 x 48 input: the bottleneck is 2 x 3 with 128 channels. *)
Lemma make_unet_stage_shapes_witness :
  exists out : node,
    make_unet (Placeholder tf_float32 (Some (32, 48, 3)%Z) "X") main_mode
              tf_nn_softmax 5 = Some out /\
    get_shape out = Some (32, 48, 5)%Z.
Proof.
  destruct (make_unet_stage_shapes
              (Placeholder tf_float32 (Some (32, 48, 3)%Z) "X") main_mode
              2 3 3 eq_refl) as [_ Hout]; try lia.
  eexists. split.
  - apply Hout. lia.
  - reflexivity.
Defined.

(** ** More on the input pipeline *)

Lemma zip_strict_succeeds {A B C : Type} (f : A -> B -> option C)
      (l1 : list A) (l2 : list B) :
  (exists l, zip_strict f l1 l2 = Some l)
  <-> Forall2 (fun a b => exists c, f a b = Some c) l1 l2.
Proof.
  revert l2. induction l1 as [|a l1 IH]; intros [|b l2]; simpl.
  - split; [constructor|now exists []].
  - split; [intros [l Hl]; discriminate|intros Hf; inversion Hf].
  - split; [intros [l Hl]; discriminate|intros Hf; inversion Hf].
  - split.
    + intros [l Hl]. invert_bind Hl. invert_bind Hl.
      constructor; [now exists a0|]. apply IH. now exists a1.
    + intros Hf. inversion Hf as [|? ? ? ? [c Hc] Hrest]; subst.
      apply IH in Hrest as [l Hl]. rewrite Hc, Hl. simpl. eauto.
Qed.

(** X4.  When the image and the mask differ in the number of rows or, in
    some row, in the number of pixels, [image_augmentation] returns
    nothing: the concatenation along the channels, its first step, rejects
    the pair. *)
Theorem image_augmentation_rejects_unequal_sizes
        (P : Type) (adjust_brightness adjust_hue : image_t P -> Q -> image_t P)
        (image mask : image_t P) (d : draws) :
  ~ Forall2 (fun row_i row_m => length row_i = length row_m) image mask ->
  image_augmentation adjust_brightness adjust_hue image mask d = None.
Proof.
  intros Hsizes. unfold image_augmentation.
  destruct (concat_last image mask) as [cat|] eqn:Hcat; [|reflexivity].
  exfalso. apply Hsizes.
  assert (Hc : exists l, zip_strict (zip_strict (fun p q : list P =>
                                                   Some (p ++ q)))
                                    image mask = Some l)
    by (now exists cat).
  apply zip_strict_succeeds in Hc. clear Hsizes Hcat.
  induction Hc as [|r1 r2 ? ? Hrow]; [constructor|].
  constructor; [|assumption].
  apply zip_strict_succeeds in Hrow.
  induction Hrow; simpl; congruence.
Qed.

(** X4, with a 1 x 2 image and a 1 x 1 mask: nothing is returned. *)
Lemma image_augmentation_rejects_unequal_sizes_witness :
  image_augmentation (fun (t : image_t Q) _ => t) (fun t _ => t)
    [[[1; 2; 3]; [4; 5; 6]]]%Q [[[0]]]%Q
    {| coin_left_right := false; coin_up_down := false;
       brightness_delta := 0%Q; hue_delta := 0%Q |}
  = None.
Proof.
  apply (image_augmentation_rejects_unequal_sizes Q
           (fun t _ => t) (fun t _ => t)).
  intros Hf. inversion Hf as [|? ? ? ? Hlen _]. discriminate Hlen.
Defined.

Section MaskChannels.
Variable P : Type.

Lemma last_slice_app (p q : list P) :
  q <> [] ->
  removelast (p ++ q) = p ++ removelast q /\
  skipn (length (p ++ q) - 1) (p ++ q) = skipn (length q - 1) q.
Proof.
  intros Hq. split; [now apply removelast_app|].
  rewrite length_app, skipn_app.
  assert (Hlen : 1 <= length q) by (destruct q; [congruence|simpl; lia]).
  rewrite skipn_all2 by lia. simpl. f_equal. lia.
Qed.

Lemma concat_row_leak (r1 r2 r : list (list P)) :
  zip_strict (fun p q => Some (p ++ q)) r1 r2 = Some r ->
  Forall (fun q => q <> []) r2 ->
  zip_strict (fun p q => Some (p ++ q)) r1 (map (@removelast P) r2)
  = Some (map (@removelast P) r) /\
  map (fun px => skipn (length px - 1) px) r
  = map (fun px => skipn (length px - 1) px) r2.
Proof.
  revert r2 r. induction r1 as [|p r1 IH]; intros [|q r2] r Hz Hne;
    simpl in Hz; try discriminate.
  - injection Hz as <-. now split.
  - invert_bind Hz. injection Hz as <-.
    inversion Hne as [|q' r2' Hq Hr2]; subst.
    destruct (IH r2 a Ha Hr2) as [Himg Hmask].
    destruct (last_slice_app p q Hq) as [Hi Hm].
    simpl. rewrite Himg, Hmask, Hi, Hm. now split.
Qed.

Lemma concat_last_leak (a b cat : image_t P) :
  concat_last a b = Some cat ->
  Forall (Forall (fun q => q <> [])) b ->
  concat_last a (all_but_last_channel b) = Some (all_but_last_channel cat) /\
  last_channel cat = last_channel b.
Proof.
  unfold concat_last, all_but_last_channel, last_channel.
  revert b cat. induction a as [|r1 a IH]; intros [|r2 b] cat Hz Hne;
    simpl in Hz; try discriminate.
  - injection Hz as <-. now split.
  - invert_bind Hz. invert_bind Hz. injection Hz as <-.
    inversion Hne as [|r2' b' Hr2 Hb]; subst.
    destruct (concat_row_leak r1 r2 a0 Ha Hr2) as [Hi Hm].
    destruct (IH b a1 Ha0 Hb) as [Himg Hmask].
    simpl. now rewrite Hi, Hm, Himg, Hmask.
Qed.

Lemma has_shape_nonempty_pixels (h w m : nat) (t : image_t P) :
  has_shape h w m t -> 1 <= m -> Forall (Forall (fun q => q <> [])) t.
Proof.
  intros [_ Hrows] Hm. induction Hrows as [|r t [_ Hr] _ IH]; constructor;
    [|assumption].
  induction Hr as [|q r Hq _ IHr]; constructor; [|assumption].
  intros ->. simpl in Hq. lia.
Qed.

Lemma has_shape_last_channel (h w m : nat) (t : image_t P) :
  has_shape h w m t -> 1 <= m -> has_shape h w 1 (last_channel t).
Proof.
  intros [Hh Hrows] Hm. unfold last_channel. split.
  - now rewrite length_map.
  - clear Hh. induction Hrows as [|r t [Hw Hr] _ IH]; simpl; constructor;
      [|assumption].
    split; [now rewrite length_map|].
    clear Hw. induction Hr as [|q r Hq _ IHr]; simpl; constructor;
      [|assumption].
    rewrite length_skipn. lia.
Qed.

Lemma length_removelast (q : list P) :
  length (removelast q) = length q - 1.
Proof.
  induction q as [|x [|y q] IHq]; simpl in *; try reflexivity.
  rewrite IHq. lia.
Qed.

Lemma has_shape_all_but_last_channel (h w m : nat) (t : image_t P) :
  has_shape h w m t -> has_shape h w (m - 1) (all_but_last_channel t).
Proof.
  intros [Hh Hrows]. unfold all_but_last_channel. split.
  - now rewrite length_map.
  - clear Hh. induction Hrows as [|r t [Hw Hr] _ IH]; simpl; constructor;
      [|assumption].
    split; [now rewrite length_map|].
    clear Hw. induction Hr as [|q r Hq _ IHr]; simpl; constructor;
      [|assumption].
    rewrite length_removelast. lia.
Qed.

Lemma concat_row_shape (c c' : nat) (r1 : list (list P)) :
  forall r2 r : list (list P),
    zip_strict (fun p q => Some (p ++ q)) r1 r2 = Some r ->
    Forall (fun px => length px = c) r1 ->
    Forall (fun px => length px = c') r2 ->
    length r = length r1 /\ Forall (fun px => length px = c + c') r.
Proof.
  induction r1 as [|p r1 IH]; intros [|q r2] r Hz H1 H2; simpl in Hz;
    try discriminate.
  - injection Hz as <-. split; constructor.
  - invert_bind Hz. injection Hz as <-.
    apply Forall_cons_iff in H1 as [Hp H1].
    apply Forall_cons_iff in H2 as [Hq H2].
    destruct (IH r2 a Ha H1 H2) as [Hlen Hall].
    split; [simpl; congruence|].
    constructor; [rewrite length_app; congruence|assumption].
Qed.

Lemma concat_last_shape (h w c c' : nat) (a b cat : image_t P) :
  concat_last a b = Some cat ->
  has_shape h w c a -> has_shape h w c' b ->
  has_shape h w (c + c') cat.
Proof.
  unfold concat_last, has_shape. intros Hz [Hh1 H1] [_ H2].
  rewrite <- Hh1. clear Hh1. revert b cat Hz H2.
  induction a as [|r1 a IH]; intros [|r2 b] cat Hz H2; simpl in Hz;
    try discriminate.
  - injection Hz as <-. split; constructor.
  - invert_bind Hz. invert_bind Hz. injection Hz as <-.
    apply Forall_cons_iff in H1 as [[Hw1 Hc1] H1].
    apply Forall_cons_iff in H2 as [[Hw2 Hc2] H2].
    destruct (IH H1 b a1 Ha0 H2) as [Hlen Hall].
    destruct (concat_row_shape c c' r1 r2 a0 Ha Hc1 Hc2) as [Hrow Hpx].
    split; [simpl; congruence|].
    constructor; [split; [congruence|assumption]|assumption].
Qed.

Variable adjust_brightness : image_t P -> Q -> image_t P.
Variable adjust_hue : image_t P -> Q -> image_t P.

(** X5.  For a mask with [m >= 1] channels the mask that
    [image_augmentation] returns is the last channel of the input mask only
    (flipped up-down or not), and the other [m - 1] mask channels are
    appended to the channels of the image before the brightness and hue
    adjustments are applied to it. *)
Theorem image_augmentation_mask_is_last_channel
        (h w c m : nat) (image mask : image_t P) (d : draws) :
  has_shape h w c image -> has_shape h w m mask -> 1 <= m ->
  exists merged : image_t P,
    concat_last image (all_but_last_channel mask) = Some merged /\
    has_shape h w (c + (m - 1)) merged /\
    has_shape h w 1 (last_channel mask) /\
    image_augmentation adjust_brightness adjust_hue image mask d
    = Some (adjust_hue
              (adjust_brightness
                 (random_flip_up_down (coin_up_down d) merged)
                 (brightness_delta d))
              (hue_delta d),
            random_flip_up_down (coin_up_down d) (last_channel mask)).
Proof.
  intros Hi Hmask Hm.
  destruct (concat_last_total P h w c m image mask Hi Hmask) as [cat Hcat].
  destruct (concat_last_leak image mask cat Hcat
              (has_shape_nonempty_pixels h w m mask Hmask Hm))
    as [Hmerged Hlast].
  destruct (slices_commute_with_flip P (coin_up_down d) cat) as [Fi Fm].
  exists (all_but_last_channel cat).
  split; [exact Hmerged|].
  split.
  { exact (concat_last_shape h w c (m - 1) image (all_but_last_channel mask)
             _ Hmerged Hi (has_shape_all_but_last_channel h w m mask Hmask)). }
  split; [exact (has_shape_last_channel h w m mask Hmask Hm)|].
  unfold image_augmentation. rewrite Hcat, obind_Some_l. cbv zeta.
  unfold random_brightness, random_hue.
  now rewrite Fi, Fm, Hlast.
Qed.

End MaskChannels.

(** X5, with a one-pixel RGB image and a three-channel mask: two mask
    channels end up in the image. *)
Lemma image_augmentation_mask_is_last_channel_witness :
  image_augmentation (fun (t : image_t Q) _ => t) (fun t _ => t)
    [[[1; 2; 3]]]%Q [[[7; 8; 9]]]%Q
    {| coin_left_right := false; coin_up_down := false;
       brightness_delta := 0%Q; hue_delta := 0%Q |}
  = Some ([[[1; 2; 3; 7; 8]]]%Q, [[[9]]]%Q).
Proof.
  destruct (image_augmentation_mask_is_last_channel Q
              (fun t _ => t) (fun t _ => t) 1 1 3 3
              [[[1; 2; 3]]]%Q [[[7; 8; 9]]]%Q
              {| coin_left_right := false; coin_up_down := false;
                 brightness_delta := 0%Q; hue_delta := 0%Q |})
    as (merged & Hmerged & _ & _ & Hrun).
  - split; [reflexivity|]. repeat constructor.
  - split; [reflexivity|]. repeat constructor.
  - lia.
  - rewrite Hrun. injection Hmerged as <-. reflexivity.
Defined.

(** X6.  [get_line_num] counts the header line too: a file of [n] lines
    holds [n - 1] records, the [k]-th read of a pass returns a record
    exactly when [k + 1 < n], and [get_image_mask] has nothing to return
    beyond that - in particular on an empty file and on a file that holds
    the header only. *)
Theorem get_line_num_counts_the_header
        (P file U : Type)
        (adjust_brightness adjust_hue : image_t P -> Q -> image_t P)
        (read_file : string -> option file)
        (img_decoder : file -> nat -> option (list (list (list U))))
        (to_float32 : U -> P) (split_fields : string -> list string)
        (lines : list string) (k : nat) (data_root : string)
        (augmentation : bool) (d : draws) :
  length (text_line_records 1 lines) = get_line_num lines - 1 /\
  ((exists line, text_reader_read 1 lines k = Some line)
   <-> S k < get_line_num lines) /\
  (get_line_num lines <= S k ->
   get_image_mask adjust_brightness adjust_hue read_file img_decoder
     to_float32 split_fields lines k data_root augmentation d = None).
Proof.
  unfold get_line_num. split; [|split].
  - unfold text_line_records. now rewrite length_skipn.
  - rewrite text_reader_skips_header. split.
    + intros [line Hline]. apply nth_error_Some. congruence.
    + intros Hlt. destruct (nth_error lines (S k)) as [line|] eqn:Hline;
        [now exists line|].
      apply nth_error_None in Hline. lia.
  - intros Hle. unfold get_image_mask.
    rewrite text_reader_skips_header.
    now rewrite (proj2 (nth_error_None lines (S k)) Hle).
Qed.

(** X6, on a file that holds the header only. *)
Lemma get_line_num_counts_the_header_witness :
  get_line_num ["image,mask"%string] = 1 /\
  get_image_mask (fun (t : image_t string) (_ : Q) => t) (fun t _ => t)
    (fun path => Some path) (fun bytes n => Some [[repeat bytes n]])
    (fun u : string => u) split_on_comma ["image,mask"%string] 0 "data/"
    false
    {| coin_left_right := false; coin_up_down := false;
       brightness_delta := 0%Q; hue_delta := 0%Q |}
  = None.
Proof.
  split; [reflexivity|].
  apply (get_line_num_counts_the_header string string string
           (fun t _ => t) (fun t _ => t) (fun path => Some path)
           (fun bytes n => Some [[repeat bytes n]]) (fun u : string => u)
           split_on_comma ["image,mask"%string] 0 "data/" false).
  simpl. lia.
Defined.

(** ** More on the training block *)

Lemma range_count_spec (d step i : Z) :
  (0 < step)%Z -> (0 <= i)%Z ->
  (i < (d + step - 1) / step <-> i * step < d)%Z.
Proof.
  intros Hs Hi.
  pose proof (Z.mul_div_le (d + step - 1) step Hs) as Hle.
  pose proof (Z.mul_succ_div_gt (d + step - 1) step Hs) as Hgt.
  split; intros H; nia.
Qed.

Lemma range_list_length (start stop step : Z) :
  (0 < step)%Z ->
  Z.of_nat (length (range_list start stop step))
  = Z.max 0 ((stop - start + step - 1) / step).
Proof.
  intros Hs. unfold range_list.
  replace (0 <? step)%Z with true by (symmetry; now apply Z.ltb_lt).
  rewrite length_map, length_seq. lia.
Qed.

(** X7.  The steps of a loop [for step in range(start, stop, step)] with a
    positive step are exactly the values from [start] up to, and not
    including, [stop] that differ from [start] by a multiple of the step,
    in increasing order and [ceil((stop - start) / step)] in number; with
    a negative step and [start <= stop] the loop body never runs; a step of
    zero raises [ValueError] before any call. *)
Theorem range_steps (start stop step : Z) :
  ((0 < step)%Z ->
   (forall x : Z,
       In x (range_list start stop step)
       <-> (start <= x < stop)%Z /\ ((x - start) mod step = 0)%Z) /\
   range_list start stop step
   = map (fun i => (start + Z.of_nat i * step)%Z)
         (seq 0 (length (range_list start stop step))) /\
   Z.of_nat (length (range_list start stop step))
   = Z.max 0 ((stop - start + step - 1) / step)) /\
  ((step < 0)%Z -> (start <= stop)%Z -> range_list start stop step = []) /\
  (forall (en : env) (s : state),
      py_range start stop 0 en s = (inl ValueError, s)).
Proof.
  split; [|split].
  - intros Hs. unfold range_list.
    replace (0 <? step)%Z with true by (symmetry; now apply Z.ltb_lt).
    set (q := ((stop - start + step - 1) / step)%Z).
    split; [|split].
    + intros x. rewrite in_map_iff. split.
      * intros (i & <- & Hi). apply in_seq in Hi.
        assert (Hq : (Z.of_nat i < q)%Z) by lia.
        apply range_count_spec in Hq; [|assumption|lia].
        split; [nia|].
        replace (start + Z.of_nat i * step - start)%Z
          with (Z.of_nat i * step)%Z by lia.
        apply Z.mod_mul. lia.
      * intros [[Hlo Hhi] Hmod].
        apply Z.div_exact in Hmod; [|lia].
        set (i := ((x - start) / step)%Z) in *.
        assert (Hi : (0 <= i)%Z) by (apply Z.div_pos; lia).
        exists (Z.to_nat i). split; [rewrite Z2Nat.id by assumption; lia|].
        apply in_seq.
        assert (Hq : (i < q)%Z).
        { apply range_count_spec; [assumption|assumption|lia]. }
        lia.
    + now rewrite length_map, length_seq.
    + rewrite length_map, length_seq. lia.
  - intros Hs Hle. unfold range_list.
    replace (0 <? step)%Z with false by (symmetry; apply Z.ltb_ge; lia).
    replace (step <? 0)%Z with true by (symmetry; now apply Z.ltb_lt).
    replace (Z.to_nat ((start - stop - step - 1) / - step)) with 0;
      [reflexivity|].
    assert (Hq : ((start - stop - step - 1) / - step <= 0)%Z).
    { assert (H0 : ((start - stop - step - 1) / - step < 1)%Z);
        [|lia].
      apply Z.div_lt_upper_bound; lia. }
    lia.
  - intros en s. reflexivity.
Qed.

(** X7, for 50 lines and batches of 16: steps 0, 16, 32 and 48. *)
Lemma range_steps_witness :
  In 48%Z (range_list 0 50 16) /\ ~ In 50%Z (range_list 0 50 16) /\
  length (range_list 0 50 16) = 4.
Proof.
  destruct (range_steps 0 50 16) as [Hpos _].
  destruct (Hpos eq_refl) as (Hin & _ & Hlen).
  split; [|split].
  - apply Hin. split; [lia|reflexivity].
  - intros H50. apply Hin in H50. lia.
  - apply Nat2Z.inj. rewrite Hlen. reflexivity.
Defined.

Lemma append_trace_app (s : state) (a b : trace_t) :
  append_trace (append_trace s a) b = append_trace s (a ++ b).
Proof. unfold append_trace. simpl. now rewrite app_assoc. Qed.

Lemma append_trace_nil (s : state) : append_trace s [] = s.
Proof. destruct s. unfold append_trace. simpl. now rewrite app_nil_r. Qed.

Lemma mbind_value {A B : Type} (m : M A) (k : A -> M B) (en : env)
      (s s' : state) (a : A) :
  m en s = (inr a, s') -> mbind m k en s = k a en s'.
Proof. intros Hm. unfold mbind. now rewrite Hm. Qed.

Lemma filter_flat_map_length {A B : Type} (p : B -> bool) (f : A -> list B)
      (c : nat) (l : list A) :
  (forall a, length (filter p (f a)) = c) ->
  length (filter p (flat_map f l)) = length l * c.
Proof.
  intros Hc. induction l as [|a l IH]; [reflexivity|].
  simpl. now rewrite filter_app, length_app, Hc, IH.
Qed.

Section QuietRun.
Variable en : env.
Hypothesis Hquiet : forall tr ev, raises en tr ev = None.

Lemma bind_call_quiet {B : Type} (ev : event) (k : unit -> M B) (s : state) :
  mbind (call ev) k en s = k tt en (append_trace s [(ev, None)]).
Proof. apply bind_call_returns, Hquiet. Qed.

Lemma call_quiet (ev : event) (s : state) :
  call ev en s = (inr tt, append_trace s [(ev, None)]).
Proof. rewrite call_value, Hquiet. reflexivity. Qed.

Lemma for_each_quiet {A : Type} (l : list A) (body : A -> M unit)
      (evs : A -> trace_t) :
  (forall a s, body a en s = (inr tt, append_trace s (evs a))) ->
  forall s, for_each l body en s = (inr tt, append_trace s (flat_map evs l)).
Proof.
  intros Hbody. induction l as [|a l IH]; intros s; simpl.
  - now rewrite append_trace_nil.
  - rewrite (mbind_value _ _ _ _ _ _ (Hbody a s)), IH.
    now rewrite append_trace_app.
Qed.

Lemma train_steps_quiet (flags : flags_t) (n_train : nat) (s : state) :
  batch_size flags <> 0%Z ->
  train_steps flags n_train en s
  = (inr tt,
     append_trace s
       (flat_map (fun _ => train_step_events)
                 (range_list 0 (Z.of_nat n_train) (batch_size flags)))).
Proof.
  intros Hb. unfold train_steps, py_range.
  apply Z.eqb_neq in Hb. rewrite Hb.
  unfold mbind at 1, ret at 1.
  apply for_each_quiet. intros step s1.
  rewrite !bind_call_quiet, call_quiet, !append_trace_app. reflexivity.
Qed.

Lemma test_steps_quiet (flags : flags_t) (n_test : nat) (epoch : Z)
      (s : state) :
  batch_size flags <> 0%Z ->
  test_steps flags n_test epoch en s
  = (inr tt,
     append_trace s
       (flat_map (test_step_events epoch)
                 (range_list 0 (Z.of_nat n_test) (batch_size flags)))).
Proof.
  intros Hb. unfold test_steps, py_range.
  apply Z.eqb_neq in Hb. rewrite Hb.
  unfold mbind at 1, ret at 1.
  apply for_each_quiet. intros step s1.
  rewrite !bind_call_quiet, call_quiet, !append_trace_app. reflexivity.
Qed.

Lemma epoch_loop_quiet (flags : flags_t) (n_train n_test : nat) (s : state) :
  batch_size flags <> 0%Z ->
  epoch_loop flags n_train n_test en s
  = (inr tt,
     append_trace s (flat_map (epoch_events flags n_train n_test)
                              (range_list 0 (epochs flags) 1))).
Proof.
  intros Hb. unfold epoch_loop, py_range. cbn [Z.eqb].
  unfold mbind at 1, ret at 1.
  apply for_each_quiet. intros epoch s1.
  rewrite (mbind_value _ _ _ _ _ _ (train_steps_quiet flags n_train s1 Hb)).
  rewrite test_steps_quiet by assumption.
  now rewrite append_trace_app.
Qed.

End QuietRun.

(** X8.  When no call raises and the batch size is positive, the training
    block makes exactly these calls: the three set-up calls; for each of
    the [epochs] epochs one training step (dequeue, train, summary) per
    step of [range(0, n_train, batch_size)], then one test step per step of
    [range(0, n_test, batch_size)]; the save; and the three calls of the
    [finally] clause.  So it performs
    [max(epochs, 0) * ceil(n_train / batch_size)] training steps, where
    [n_train] is the line count of the training file, header included. *)
Theorem main_training_quiet_run
        (flags : flags_t) (n_train n_test : nat) (en : env) (s : state) :
  (forall tr ev, raises en tr ev = None) ->
  (0 < batch_size flags)%Z ->
  main_training flags n_train n_test en s
  = (inr tt, {| trace := trace s ++ training_events flags n_train n_test;
                coord := true; threads := true |}) /\
  count_train_steps (training_events flags n_train n_test)
  = Z.to_nat (epochs flags)
    * Z.to_nat ((Z.of_nat n_train + batch_size flags - 1)
                / batch_size flags).
Proof.
  intros Hquiet Hb. split.
  - unfold main_training, try_finally.
    rewrite (try_body_after_setup flags n_train n_test en s)
      by (intros tr; apply Hquiet).
    rewrite (mbind_value _ _ _ _ _ _
               (epoch_loop_quiet en Hquiet flags n_train n_test _
                  ltac:(lia))).
    rewrite (call_quiet en Hquiet), append_trace_app.
    unfold finally_clause.
    rewrite bind_read_coord by reflexivity.
    rewrite (bind_call_quiet en Hquiet).
    rewrite bind_read_coord by reflexivity.
    rewrite bind_read_threads by reflexivity.
    rewrite (bind_call_quiet en Hquiet), (call_quiet en Hquiet).
    rewrite !append_trace_app. unfold append_trace, training_events.
    cbn [trace coord threads]. rewrite <- !app_assoc. reflexivity.
  - unfold count_train_steps, training_events.
    rewrite !filter_app, !length_app. cbn [filter is_train_step fst length].
    rewrite (filter_flat_map_length is_train_step
               (epoch_events flags n_train n_test)
               (length (range_list 0 (Z.of_nat n_train) (batch_size flags)))).
    + pose proof (range_list_length 0 (epochs flags) 1 eq_refl) as Hepochs.
      pose proof (range_list_length 0 (Z.of_nat n_train) (batch_size flags)
                    Hb) as Hsteps.
      rewrite Z.div_1_r in Hepochs.
      assert (Hq : (0 <= (Z.of_nat n_train + batch_size flags - 1)
                         / batch_size flags)%Z).
      { apply Z.div_pos; lia. }
      replace (Z.of_nat n_train - 0 + batch_size flags - 1)%Z
        with (Z.of_nat n_train + batch_size flags - 1)%Z in Hsteps by lia.
      nia.
    + intros epoch. unfold epoch_events.
      rewrite filter_app, length_app.
      rewrite (filter_flat_map_length is_train_step
                 (fun _ => train_step_events) 1) by reflexivity.
      rewrite (filter_flat_map_length is_train_step
                 (test_step_events epoch) 0) by reflexivity.
      lia.
Qed.

(** X8, for 2 epochs, a training file of 50 lines and batches of 16. *)
Lemma main_training_quiet_run_witness :
  let flags := {| data_root := ""; train := "./train.csv";
                  test := "./test.csv"; epochs := 2;
                  learning_rate := (1 # 1000)%Q; batch_size := 16;
                  channels := 5; height := 256; w := 256;
                  logdir := "logdir"; ckdir := "models" |} in
  count_train_steps (training_events flags 50 20) = 8.
Proof.
  intros flags.
  destruct (main_training_quiet_run flags 50 20
              {| path_exists := fun _ => false;
                 checkpoint_exists := fun _ => false;
                 latest_checkpoint := fun _ => None;
                 raises := fun _ _ => None |} initial_state)
    as [_ Hcount].
  - reflexivity.
  - reflexivity.
  - rewrite Hcount. reflexivity.
Defined.

(** *** The first exception ends the block *)

Lemma all_returned_app (a b : trace_t) :
  all_returned a -> all_returned b -> all_returned (a ++ b).
Proof. intros Ha Hb. apply Forall_app. now split. Qed.

Lemma fail_stop_ret {A : Type} (a : A) : fail_stop (ret a).
Proof.
  intros en s. exists []. simpl. rewrite app_nil_r. split; constructor.
Qed.

Lemma fail_stop_raise {A : Type} (e : exn) : fail_stop (@raise A e).
Proof.
  intros en s. exists []. simpl. rewrite app_nil_r.
  split; [reflexivity|left; constructor].
Qed.

Lemma fail_stop_call (ev : event) : fail_stop (call ev).
Proof.
  intros en s. rewrite call_value.
  exists [(ev, raises en (trace s) ev)]. split; [reflexivity|].
  destruct (raises en (trace s) ev) as [e|]; simpl.
  - right. exists [], ev. split; [reflexivity|constructor].
  - repeat constructor.
Qed.

Lemma fail_stop_bind {A B : Type} (m : M A) (k : A -> M B) :
  fail_stop m -> (forall a, fail_stop (k a)) -> fail_stop (mbind m k).
Proof.
  intros Hm Hk en s. unfold mbind.
  destruct (Hm en s) as (new1 & Ht1 & Hr1).
  destruct (m en s) as [[e|a] s1]; simpl in Ht1, Hr1.
  - exists new1. split; assumption.
  - destruct (Hk a en s1) as (new2 & Ht2 & Hr2).
    exists (new1 ++ new2). split; [now rewrite Ht2, Ht1, app_assoc|].
    destruct (fst (k a en s1)) as [e|b].
    + destruct Hr2 as [Hall|(pre & ev & -> & Hpre)].
      * left. now apply all_returned_app.
      * right. exists (new1 ++ pre), ev.
        split; [now rewrite app_assoc|now apply all_returned_app].
    + now apply all_returned_app.
Qed.

Lemma fail_stop_for_each {A : Type} (l : list A) (body : A -> M unit) :
  (forall a, fail_stop (body a)) -> fail_stop (for_each l body).
Proof.
  intros Hbody. induction l as [|a l IH]; simpl.
  - apply fail_stop_ret.
  - apply fail_stop_bind; [apply Hbody|intros _; exact IH].
Qed.

Lemma fail_stop_py_range (start stop step : Z) :
  fail_stop (py_range start stop step).
Proof.
  unfold py_range. destruct (step =? 0)%Z;
    [apply fail_stop_raise|apply fail_stop_ret].
Qed.

Lemma fail_stop_bind_locals : fail_stop bind_coord /\ fail_stop bind_threads.
Proof.
  split; intros en s; exists []; simpl; rewrite app_nil_r;
    split; constructor.
Qed.

Lemma fail_stop_try_body (flags : flags_t) (n_train n_test : nat) :
  fail_stop (try_body flags n_train n_test).
Proof.
  unfold try_body, epoch_loop, train_steps, test_steps.
  repeat first
    [ apply fail_stop_bind
    | apply fail_stop_for_each
    | apply fail_stop_py_range
    | apply fail_stop_call
    | apply (proj1 fail_stop_bind_locals)
    | apply (proj2 fail_stop_bind_locals)
    | intro ].
Qed.

Lemma raising_entry_is_last (pre0 : trace_t) :
  forall (x y : event * option exn) (pre post : trace_t),
    pre0 ++ [x] = pre ++ y :: post ->
    all_returned pre0 -> snd y <> None ->
    post = [] /\ y = x /\ pre = pre0.
Proof.
  induction pre0 as [|z pre0 IH]; intros x y pre post Heq Hall Hy.
  - destruct pre as [|z' pre]; simpl in Heq.
    + injection Heq as <- <-. now repeat split.
    + injection Heq as _ Heq. now destruct pre.
  - inversion Hall as [|z0 l0 Hz Hall']; subst.
    destruct pre as [|z' pre]; simpl in Heq.
    + injection Heq as <- _. contradiction.
    + injection Heq as <- Heq.
      destruct (IH x y pre post Heq Hall' Hy) as (-> & -> & ->).
      now repeat split.
Qed.

(** X9.  The [try] block of [main] handles nothing: in every environment
    and from every state, a call of the block that raises is the last call
    the block makes, every call before it returned, and its exception is
    the outcome of the block. *)
Theorem try_body_stops_at_first_exception
        (flags : flags_t) (n_train n_test : nat) (en : env) (s : state) :
  exists new : trace_t,
    trace (snd (try_body flags n_train n_test en s)) = trace s ++ new /\
    forall (pre post : trace_t) (ev : event) (e : exn),
      new = pre ++ (ev, Some e) :: post ->
      post = [] /\ all_returned pre /\
      fst (try_body flags n_train n_test en s) = inl e.
Proof.
  destruct (fail_stop_try_body flags n_train n_test en s)
    as (new & Htrace & Hresult).
  exists new. split; [exact Htrace|].
  intros pre post ev e Hnew.
  assert (Hbad : ~ all_returned new).
  { rewrite Hnew. intros Hall. apply Forall_app in Hall as [_ Hall].
    inversion Hall as [|? ? Hnone _]. discriminate Hnone. }
  destruct (fst (try_body flags n_train n_test en s)) as [e0|u];
    [|contradiction].
  destruct Hresult as [Hall|(pre0 & ev0 & Hnew0 & Hpre0)]; [contradiction|].
  rewrite Hnew0 in Hnew.
  destruct (raising_entry_is_last pre0 (ev0, Some e0) (ev, Some e) pre post
              Hnew Hpre0) as (-> & Heq & ->); [discriminate|].
  injection Heq as _ ->. now repeat split.
Qed.

(** X9, when the first dequeue of a training batch raises. *)
Lemma try_body_stops_at_first_exception_witness :
  result_of (try_body default_flags 2 2) env_missing_image = inl OpError.
Proof.
  destruct (try_body_stops_at_first_exception default_flags 2 2
              env_missing_image initial_state) as (new & Htrace & Hlast).
  apply (Hlast [(ev_get_global_step, None); (ev_Coordinator, None);
                (ev_start_queue_runners, None)] []
               (ev_run_batch true) OpError).
  apply (app_inv_head (trace initial_state)). rewrite <- Htrace.
  reflexivity.
Defined.

Lemma bind_call_raises {B : Type} (ev : event) (k : unit -> M B)
      (en : env) (s : state) (e : exn) :
  raises en (trace s) ev = Some e ->
  mbind (call ev) k en s = (inl e, log ev (Some e) s).
Proof. intros Hr. unfold mbind, call. now rewrite Hr. Qed.

Lemma finally_unbound_coord (flags : flags_t) (en : env) (s : state) :
  coord s = false ->
  finally_clause flags en s = (inl UnboundLocalError, s).
Proof.
  intros Hc. unfold finally_clause, mbind at 1, read_coord at 1.
  now rewrite Hc.
Qed.

Lemma finally_unbound_threads (flags : flags_t) (en : env) (s : state) :
  coord s = true -> threads s = false ->
  let o := raises en (trace s) ev_request_stop in
  finally_clause flags en s
  = (inl match o with
         | Some e' => e'
         | None => UnboundLocalError
         end,
     log ev_request_stop o s).
Proof.
  intros Hc Ht. cbv zeta. unfold finally_clause.
  rewrite bind_read_coord by exact Hc.
  destruct (raises en (trace s) ev_request_stop) as [e'|] eqn:Hstop.
  - now rewrite bind_call_raises with (e := e') by exact Hstop.
  - rewrite bind_call_returns by exact Hstop.
    rewrite bind_read_coord by exact Hc.
    unfold mbind at 1, read_threads at 1. cbn [threads log]. now rewrite Ht.
Qed.

Lemma run_when_global_step_raises
      (flags : flags_t) (n_train n_test : nat) (en : env) (s : state)
      (e : exn) :
  coord s = false ->
  raises en (trace s) ev_get_global_step = Some e ->
  main_training flags n_train n_test en s
  = (inl UnboundLocalError, log ev_get_global_step (Some e) s).
Proof.
  intros Hc Hstep. unfold main_training, try_finally, try_body.
  rewrite bind_call_raises with (e := e) by exact Hstep.
  now rewrite finally_unbound_coord by exact Hc.
Qed.

Lemma run_when_coordinator_raises
      (flags : flags_t) (n_train n_test : nat) (en : env) (s : state)
      (e : exn) :
  coord s = false ->
  raises en (trace s) ev_get_global_step = None ->
  raises en (trace s ++ [(ev_get_global_step, None)]) ev_Coordinator
  = Some e ->
  main_training flags n_train n_test en s
  = (inl UnboundLocalError,
     log ev_Coordinator (Some e) (log ev_get_global_step None s)).
Proof.
  intros Hc Hstep Hcoord. unfold main_training, try_finally, try_body.
  rewrite bind_call_returns by exact Hstep.
  rewrite bind_call_raises with (e := e) by exact Hcoord.
  now rewrite finally_unbound_coord by exact Hc.
Qed.

Lemma run_when_queue_runners_raise
      (flags : flags_t) (n_train n_test : nat) (en : env) (s : state)
      (e : exn) :
  threads s = false ->
  raises en (trace s) ev_get_global_step = None ->
  raises en (trace s ++ [(ev_get_global_step, None)]) ev_Coordinator
  = None ->
  raises en ((trace s ++ [(ev_get_global_step, None)])
               ++ [(ev_Coordinator, None)]) ev_start_queue_runners
  = Some e ->
  let t3 := ((trace s ++ [(ev_get_global_step, None)])
               ++ [(ev_Coordinator, None)])
              ++ [(ev_start_queue_runners, Some e)] in
  let o := raises en t3 ev_request_stop in
  main_training flags n_train n_test en s
  = (inl match o with
         | Some e' => e'
         | None => UnboundLocalError
         end,
     {| trace := t3 ++ [(ev_request_stop, o)];
        coord := true; threads := false |}).
Proof.
  intros Ht Hstep Hcoord Hrun. cbv zeta.
  unfold main_training, try_finally, try_body.
  rewrite bind_call_returns by exact Hstep.
  rewrite bind_call_returns by exact Hcoord.
  unfold mbind at 1, bind_coord at 1.
  rewrite bind_call_raises with (e := e) by exact Hrun.
  rewrite finally_unbound_threads by (try reflexivity; exact Ht).
  cbn [trace log coord threads]. now rewrite Ht.
Qed.

(** X10.  [coord] and [threads] are assigned inside the [try] block, so an
    exception of the set-up leaves the [finally] clause with an unbound
    local.  If [get_global_step] or [Coordinator()] raises, the clause makes
    no call at all and the run ends with [UnboundLocalError] in place of the
    exception of the set-up.  If [start_queue_runners] raises, the clause
    requests the stop and then ends with [UnboundLocalError] (or with the
    exception of [request_stop]).  In none of these runs is a checkpoint
    saved or the join reached. *)
Theorem setup_exception_is_replaced
        (flags : flags_t) (n_train n_test : nat) (en : env) (s : state)
        (e : exn) :
  coord s = false -> threads s = false ->
  let run := main_training flags n_train n_test en s in
  let t1 := trace s ++ [(ev_get_global_step, None)] in
  let t2 := t1 ++ [(ev_Coordinator, None)] in
  (raises en (trace s) ev_get_global_step = Some e ->
   fst run = inl UnboundLocalError /\
   trace (snd run) = trace s ++ [(ev_get_global_step, Some e)]) /\
  (raises en (trace s) ev_get_global_step = None ->
   raises en t1 ev_Coordinator = Some e ->
   fst run = inl UnboundLocalError /\
   trace (snd run) = t1 ++ [(ev_Coordinator, Some e)]) /\
  (raises en (trace s) ev_get_global_step = None ->
   raises en t1 ev_Coordinator = None ->
   raises en t2 ev_start_queue_runners = Some e ->
   let t3 := t2 ++ [(ev_start_queue_runners, Some e)] in
   let o := raises en t3 ev_request_stop in
   fst run = inl match o with
                 | Some e' => e'
                 | None => UnboundLocalError
                 end /\
   trace (snd run) = t3 ++ [(ev_request_stop, o)]).
Proof.
  intros Hc Ht. cbv zeta. split; [|split].
  - intros Hstep.
    rewrite (run_when_global_step_raises flags n_train n_test en s e Hc
               Hstep).
    now split.
  - intros Hstep Hcoord.
    rewrite (run_when_coordinator_raises flags n_train n_test en s e Hc
               Hstep Hcoord).
    now split.
  - intros Hstep Hcoord Hrun.
    rewrite (run_when_queue_runners_raise flags n_train n_test en s e Ht
               Hstep Hcoord Hrun).
    now split.
Qed.

(** X10, when [start_queue_runners] raises [RuntimeError]. *)
Lemma setup_exception_is_replaced_witness :
  let en := {| path_exists := fun _ => true;
               checkpoint_exists := fun _ => true;
               latest_checkpoint := fun _ => None;
               raises := fun _ ev => match ev with
                                     | ev_start_queue_runners =>
                                         Some RuntimeError
                                     | _ => None
                                     end |} in
  result_of (main_training default_flags 2 2) en = inl UnboundLocalError.
Proof.
  intros en.
  destruct (setup_exception_is_replaced default_flags 2 2 en initial_state
              RuntimeError eq_refl eq_refl) as (_ & _ & Hthreads).
  exact (proj1 (Hthreads eq_refl eq_refl eq_refl)).
Defined.

(** ** The overlap score in exact arithmetic

    The bounds below are stated over the rationals, that is for the score
    as the formula defines it, without the rounding of [float32]. *)

Section RationalScore.
Local Open Scope Q_scope.

Lemma fold_left_Qplus_acc (l : list Q) (a : Q) :
  fold_left Qplus l a == a + fold_left Qplus l 0.
Proof.
  revert a. induction l as [|x l IH]; intros a; simpl.
  - lra.
  - rewrite (IH (a + x)), (IH (0 + x)). lra.
Qed.

Lemma sum_list_nil : sum_list (@nil Q) == 0.
Proof. reflexivity. Qed.

Lemma sum_list_cons (x : Q) (l : list Q) :
  sum_list (x :: l) == x + sum_list l.
Proof.
  unfold sum_list. cbn [fold_left s_add s_const Scalar_Q].
  rewrite fold_left_Qplus_acc. change (inject_Z 0) with 0. lra.
Qed.

Lemma sum_list_nonneg (l : list Q) :
  Forall (fun x => 0 <= x) l -> 0 <= sum_list l.
Proof.
  induction 1 as [|x l Hx _ IH].
  - rewrite sum_list_nil. lra.
  - rewrite sum_list_cons. lra.
Qed.

Lemma area_intersection_cons (x y : Q) (p t : list Q) :
  area_intersection (x :: p) (y :: t) == x * y + area_intersection p t.
Proof.
  unfold area_intersection, zip_with. cbn [combine map fst snd].
  rewrite sum_list_cons. reflexivity.
Qed.

Lemma area_intersection_bounds (p : list Q) :
  forall t : list Q,
    Forall (fun x => 0 <= x <= 1) p ->
    Forall (fun x => 0 <= x <= 1) t ->
    0 <= area_intersection p t /\
    area_intersection p t <= sum_list p /\
    area_intersection p t <= sum_list t.
Proof.
  induction p as [|x p IH]; intros t Hp Ht.
  - change (area_intersection [] t) with (sum_list (@nil Q)).
    rewrite sum_list_nil. repeat split; try lra.
    apply sum_list_nonneg. eapply Forall_impl; [|exact Ht].
    intros a [Ha _]. exact Ha.
  - destruct t as [|y t].
    + change (area_intersection (x :: p) []) with (sum_list (@nil Q)).
      rewrite sum_list_nil. repeat split; try lra.
      apply sum_list_nonneg. eapply Forall_impl; [|exact Hp].
      intros a [Ha _]. exact Ha.
    + inversion Hp as [|? ? Hx Hp']; inversion Ht as [|? ? Hy Ht']; subst.
      destruct (IH t Hp' Ht') as (H0 & H1 & H2).
      rewrite area_intersection_cons, !sum_list_cons.
      repeat split; nra.
Qed.

Lemma overlap_score_value (p t : list Q) :
  overlap_score p t
  == (2 * area_intersection p t + (1 # 10000000))
     / (sum_list p + sum_list t + (1 # 10000000)).
Proof. reflexivity. Qed.

End RationalScore.

Section RationalScoreBounds.
Local Open Scope Q_scope.

(** X11.  For a prediction and a ground truth whose pixel values lie
    between 0 and 1 - the outputs of sigmoid or softmax against a 0/1 mask -
    the score of one sample is greater than 0 and at most 1, however many
    pixels the two lists have. *)
Theorem overlap_score_between_0_and_1 (p t : list Q) :
  Forall (fun x => 0 <= x <= 1) p ->
  Forall (fun x => 0 <= x <= 1) t ->
  0 < overlap_score p t /\ overlap_score p t <= 1.
Proof.
  intros Hp Ht.
  destruct (area_intersection_bounds p t Hp Ht) as (H0 & H1 & H2).
  rewrite overlap_score_value.
  set (I := area_intersection p t) in *.
  set (A := sum_list p) in *. set (B := sum_list t) in *.
  assert (Hden : 0 < A + B + (1 # 10000000)) by lra.
  split.
  - apply Qlt_shift_div_l; [exact Hden|lra].
  - apply Qle_shift_div_r; [exact Hden|lra].
Qed.

(** X11, on three pixels. *)
Lemma overlap_score_between_0_and_1_witness :
  0 < overlap_score [1 # 2; 1; 0] [1; 0; 0] /\
  overlap_score [1 # 2; 1; 0] [1; 0; 0] <= 1.
Proof.
  apply overlap_score_between_0_and_1;
    repeat constructor; discriminate.
Defined.

Lemma binary_square (x : Q) : x == 0 \/ x == 1 -> x * x == x.
Proof. intros [->| ->]; reflexivity. Qed.

Lemma area_intersection_self (p : list Q) :
  Forall (fun x => x == 0 \/ x == 1) p ->
  area_intersection p p == sum_list p.
Proof.
  induction 1 as [|x p Hx _ IH].
  - reflexivity.
  - rewrite area_intersection_cons, sum_list_cons, IH.
    now rewrite (binary_square x Hx).
Qed.

(** X12.  A prediction that equals a 0/1 ground truth pixel for pixel has
    score exactly 1.  That includes the sample in which both masks are
    empty (no pixel set): the two smoothing terms make it 1e-7 / 1e-7. *)
Theorem overlap_score_of_exact_prediction (p : list Q) :
  Forall (fun x => x == 0 \/ x == 1) p ->
  overlap_score p p == 1.
Proof.
  intros Hp. rewrite overlap_score_value, (area_intersection_self p Hp).
  assert (Hs : 0 <= sum_list p).
  { apply sum_list_nonneg. eapply Forall_impl; [|exact Hp].
    intros a [Ha|Ha]; rewrite Ha; discriminate. }
  set (A := sum_list p) in *.
  field. lra.
Qed.

(** X12, on an empty mask of four pixels. *)
Lemma overlap_score_of_exact_prediction_witness :
  overlap_score [0; 0; 0; 0] [0; 0; 0; 0] == 1.
Proof.
  apply overlap_score_of_exact_prediction.
  repeat constructor; left; reflexivity.
Defined.

Lemma area_intersection_disjoint (p : list Q) :
  forall t : list Q,
    Forall (fun x => x == 0) (zip_with Qmult p t) ->
    area_intersection p t == 0.
Proof.
  induction p as [|x p IH]; intros [|y t] Hz; try reflexivity.
  inversion Hz as [|? ? Hxy Hrest]; subst.
  rewrite area_intersection_cons, (IH t Hrest).
  cbn [fst snd] in Hxy. lra.
Qed.

(** X13.  A prediction that misses completely - at no pixel are prediction
    and ground truth both non-zero - while prediction and ground truth
    together cover at least one pixel, scores less than 1e-7. *)
Theorem overlap_score_of_complete_miss (p t : list Q) :
  Forall (fun x => 0 <= x) p -> Forall (fun x => 0 <= x) t ->
  Forall (fun x => x == 0) (zip_with Qmult p t) ->
  1 <= sum_list p + sum_list t ->
  overlap_score p t < 1 # 10000000.
Proof.
  intros Hp Ht Hz Hcover.
  rewrite overlap_score_value, (area_intersection_disjoint p t Hz).
  set (A := sum_list p) in *. set (B := sum_list t) in *.
  apply Qlt_shift_div_r; [lra|]. nra.
Qed.

(** X13, with the object predicted one pixel to the side. *)
Lemma overlap_score_of_complete_miss_witness :
  overlap_score [0; 1; 0] [1; 0; 0] < 1 # 10000000.
Proof.
  apply overlap_score_of_complete_miss.
  - repeat constructor; discriminate.
  - repeat constructor; discriminate.
  - repeat constructor.
  - vm_compute. discriminate.
Defined.

End RationalScoreBounds.

(** ** Channels and classes *)

Lemma nth_error_row {A : Type} (k i cc : nat) (l : list A) :
  cc < k ->
  nth_error (firstn k (skipn (i * k) l)) cc = nth_error l (i * k + cc).
Proof.
  intros Hcc. rewrite nth_error_firstn.
  apply Nat.ltb_lt in Hcc. rewrite Hcc. apply nth_error_skipn.
Qed.

Lemma picks_of_seq {A : Type} (f : nat -> option A) (m : nat) :
  forall a : nat,
    (forall j, a <= j < a + m -> f j <> None) ->
    let picked := flat_map (fun i => match f i with
                                     | Some v => [v]
                                     | None => []
                                     end) (seq a m) in
    length picked = m /\
    forall i, i < m -> nth_error picked i = f (a + i).
Proof.
  induction m as [|m IH]; intros a Hf; cbv zeta.
  - split; [reflexivity|]. intros i Hi. lia.
  - cbn [seq flat_map].
    destruct (f a) as [v|] eqn:Hfa; [|now destruct (Hf a ltac:(lia))].
    destruct (IH (S a)) as [Hlen Hnth].
    { intros j Hj. apply Hf. lia. }
    cbv zeta in Hlen, Hnth. split.
    + simpl. now rewrite Hlen.
    + intros [|i] Hi.
      * simpl. now rewrite Nat.add_0_r.
      * simpl. rewrite Hnth by lia. f_equal. lia.
Qed.

Lemma channel_pixels_spec {A : Type} (cc c m : nat) (l : list A) :
  length l = m * c -> cc < c ->
  length (channel_pixels cc c l) = m /\
  forall i, i < m ->
            nth_error (channel_pixels cc c l) i = nth_error l (i * c + cc).
Proof.
  intros Hlen Hcc. unfold channel_pixels, rows.
  rewrite Hlen, Nat.div_mul by lia.
  rewrite flat_map_concat_map, map_map, <- flat_map_concat_map.
  rewrite (flat_map_ext _ (fun i => match nth_error l (i * c + cc) with
                                    | Some v => [v]
                                    | None => []
                                    end)).
  2:{ intros i. now rewrite nth_error_row. }
  destruct (picks_of_seq (fun i => nth_error l (i * c + cc)) m 0)
    as [Hm Hnth].
  { intros j Hj. apply nth_error_Some. nia. }
  cbv zeta in Hm, Hnth. split; [exact Hm|].
  intros i Hi. now rewrite Hnth.
Qed.

(** X14.  On a row-major tensor of shape (n, h, w, c) the slice
    [t[:, :, :, cc]] with [cc < c] has shape (n, h, w), and its [i]-th
    element is element [i * c + cc] of [t]: the channel [cc] of pixel [i]. *)
Theorem slice_channel_picks_the_channel
        {T : Type} `{Scalar T} (cc n h w c : nat) (t : tensor T) :
  shape t = [n; h; w; c] ->
  length (data t) = n * h * w * c ->
  cc < c ->
  exists d : list T,
    slice_channel cc t = Some (mk_tensor [n; h; w] d) /\
    length d = n * h * w /\
    forall i, i < n * h * w ->
              nth_error d i = nth_error (data t) (i * c + cc).
Proof.
  intros Hs Hlen Hcc.
  exists (channel_pixels cc c (data t)). split.
  - unfold slice_channel. rewrite Hs.
    apply Nat.ltb_lt in Hcc. now rewrite Hcc.
  - exact (channel_pixels_spec cc c (n * h * w) (data t) Hlen Hcc).
Qed.

(** X14, on two pixels with three channels each. *)
Lemma slice_channel_picks_the_channel_witness :
  slice_channel 1 (mk_tensor [1; 1; 2; 3] [10; 11; 12; 20; 21; 22]%Q)
  = Some (mk_tensor [1; 1; 2] [11; 21]%Q).
Proof.
  destruct (slice_channel_picks_the_channel 1 1 1 2 3
              (mk_tensor [1; 1; 2; 3] [10; 11; 12; 20; 21; 22]%Q)
              eq_refl eq_refl) as (d & Hslice & Hlen & Hnth); [lia|].
  rewrite Hslice. f_equal. f_equal.
  destruct d as [|x [|y [|z d]]]; try discriminate Hlen.
  pose proof (Hnth 0 ltac:(simpl; lia)) as H0.
  pose proof (Hnth 1 ltac:(simpl; lia)) as H1.
  simpl in H0, H1. now injection H0 as ->; injection H1 as ->.
Defined.

Section ClassScores.
Context {T : Type} `{Scalar T}.

Lemma IOU_as_mean {E : Type} (to_float : E -> T)
      (y_pred : tensor T) (y_true : tensor E)
      (n h w : nat) (rest : list nat) :
  shape y_pred = n :: h :: w :: rest ->
  length (data y_true) = length (data y_pred) ->
  IOU_ to_float y_pred y_true
  = Some (mean_list
            (zip_with overlap_score
               (rows (length (data y_pred) / (h * w)) (h * w) (data y_pred))
               (rows (length (data y_pred) / (h * w)) (h * w)
                     (map to_float (data y_true))))).
Proof.
  intros Hs Hlen. rewrite (IOU_rank3 to_float y_pred y_true n h w rest Hs).
  cbv zeta. rewrite Hlen. do 2 f_equal.
  rewrite rows_zip_with. unfold rows.
  repeat (rewrite map_map || rewrite zip_with_map_same).
  apply map_ext. intros i. reflexivity.
Qed.

Lemma sparse_iou_value (y_pred y_true : tensor T) (n h w c : nat) :
  shape y_pred = [n; h; w; c] ->
  length (data y_pred) = n * h * w * c ->
  length (data y_true) = n * h * w ->
  0 < h * w ->
  sparse_iou y_pred y_true
  = Some (mean_list (map (class_score n h w c y_pred y_true) (seq 0 c))).
Proof.
  intros Hs Hpred Htrue Hhw. unfold sparse_iou. rewrite Hs.
  cbn [rev app].
  rewrite (otraverse_total _ (class_score n h w c y_pred y_true));
    [reflexivity|].
  intros cc Hcc. apply in_seq in Hcc.
  assert (Hlt : cc < c) by lia.
  destruct (channel_pixels_spec cc c (n * h * w) (data y_pred) Hpred Hlt)
    as [Hlen _].
  unfold slice_channel. rewrite Hs.
  replace (cc <? c) with true by (symmetry; now apply Nat.ltb_lt).
  rewrite obind_Some_l.
  fold (channel_pixels cc c (data y_pred)).
  rewrite (IOU_as_mean bool_to_float
             (mk_tensor [n; h; w] (channel_pixels cc c (data y_pred)))
             (t_equal y_true cc) n h w [] eq_refl).
  2:{ cbn [data t_equal t_map]. rewrite length_map. congruence. }
  cbn [data t_equal t_map]. rewrite Hlen, map_map.
  replace (n * h * w) with (n * (h * w)) by lia.
  rewrite Nat.div_mul by lia. reflexivity.
Qed.

(** X15.  For a prediction of shape (n, h, w, c) and labels with one value
    per pixel, [sparse_iou] is the mean over the classes 0, ..., c-1 of the
    score of the class, and the score of class [cc] is the mean over the
    batch of the per-sample score of channel [cc] of the prediction against
    the 0/1 mask of the pixels whose label equals [cc]. *)
Theorem sparse_iou_is_mean_of_class_scores
        (y_pred y_true : tensor T) (n h w c : nat) :
  shape y_pred = [n; h; w; c] ->
  length (data y_pred) = n * h * w * c ->
  length (data y_true) = n * h * w ->
  0 < h * w ->
  sparse_iou y_pred y_true
  = Some (mean_list (map (class_score n h w c y_pred y_true) (seq 0 c))).
Proof. exact (sparse_iou_value y_pred y_true n h w c). Qed.

End ClassScores.

(** X15, on one sample of two pixels with two classes. *)
Lemma sparse_iou_is_mean_of_class_scores_witness :
  let y_pred := mk_tensor [1; 1; 2; 2] [1; 0; 0; 1]%Q in
  let y_true := mk_tensor [1; 1; 2; 1] [0; 1]%Q in
  sparse_iou y_pred y_true
  = Some (mean_list [class_score 1 1 2 2 y_pred y_true 0;
                     class_score 1 1 2 2 y_pred y_true 1]).
Proof.
  intros y_pred y_true.
  apply (sparse_iou_is_mean_of_class_scores y_pred y_true 1 1 2 2);
    try reflexivity.
  simpl. lia.
Defined.

(** ** Range of the loss *)

Lemma in_row {A : Type} (k i : nat) (l : list A) (x : A) :
  In x (firstn k (skipn i l)) -> In x l.
Proof.
  intros Hx. rewrite <- (firstn_skipn i l). apply in_or_app. right.
  rewrite <- (firstn_skipn k (skipn i l)). apply in_or_app. now left.
Qed.

Lemma Forall_rows {A : Type} (P : A -> Prop) (n k : nat) (l : list A) :
  Forall P l -> Forall (Forall P) (rows n k l).
Proof.
  intros Hl. unfold rows. apply Forall_map, Forall_forall. intros i _.
  apply Forall_forall. intros x Hx.
  rewrite Forall_forall in Hl. apply Hl. eapply in_row. exact Hx.
Qed.

Lemma Forall_channel_pixels {A : Type} (P : A -> Prop) (cc c : nat)
      (l : list A) :
  Forall P l -> Forall P (channel_pixels cc c l).
Proof.
  intros Hl. unfold channel_pixels. apply Forall_flat_map.
  pose proof (Forall_rows P (length l / c) c l Hl) as Hrows.
  eapply Forall_impl; [|exact Hrows].
  intros px Hpx. destruct (nth_error px cc) as [v|] eqn:Hv;
    [|constructor].
  constructor; [|constructor].
  rewrite Forall_forall in Hpx. apply Hpx.
  eapply nth_error_In. exact Hv.
Qed.

Lemma Forall_zip_with {A B C : Type} (PA : A -> Prop) (PB : B -> Prop)
      (PC : C -> Prop) (f : A -> B -> C) (l1 : list A) :
  (forall a b, PA a -> PB b -> PC (f a b)) ->
  forall l2 : list B,
    Forall PA l1 -> Forall PB l2 -> Forall PC (zip_with f l1 l2).
Proof.
  intros Hf. unfold zip_with.
  induction l1 as [|a l1 IH]; intros [|b l2] H1 H2; simpl;
    try constructor.
  - apply Hf; [now inversion H1|now inversion H2].
  - apply IH; [now inversion H1|now inversion H2].
Qed.

Lemma length_zip_with {A B C : Type} (f : A -> B -> C)
      (l1 : list A) (l2 : list B) :
  length (zip_with f l1 l2) = Nat.min (length l1) (length l2).
Proof. unfold zip_with. now rewrite length_map, length_combine. Qed.

Lemma length_rows {A : Type} (n k : nat) (l : list A) :
  length (rows n k l) = n.
Proof. unfold rows. now rewrite length_map, length_seq. Qed.

Section RationalLoss.
Local Open Scope Q_scope.

Lemma overlap_score_bounds (p t : list Q) :
  Forall (fun x => 0 <= x <= 1) p ->
  Forall (fun x => 0 <= x <= 1) t ->
  0 < overlap_score p t <= 1.
Proof.
  intros Hp Ht.
  destruct (area_intersection_bounds p t Hp Ht) as (H0 & H1 & H2).
  rewrite overlap_score_value.
  set (I := area_intersection p t) in *.
  set (A := sum_list p) in *. set (B := sum_list t) in *.
  assert (Hden : 0 < A + B + (1 # 10000000)) by lra.
  split.
  - apply Qlt_shift_div_l; [exact Hden|lra].
  - apply Qle_shift_div_r; [exact Hden|lra].
Qed.

Lemma inject_Z_length_cons {A : Type} (x : A) (l : list A) :
  inject_Z (Z.of_nat (length (x :: l)))
  == inject_Z (Z.of_nat (length l)) + 1.
Proof.
  cbn [length]. rewrite Nat2Z.inj_succ, <- Z.add_1_r, inject_Z_plus.
  reflexivity.
Qed.

Lemma sum_list_unit_bounds (l : list Q) :
  Forall (fun x => 0 < x <= 1) l ->
  0 <= sum_list l /\ sum_list l <= inject_Z (Z.of_nat (length l)) /\
  (l <> [] -> 0 < sum_list l).
Proof.
  induction 1 as [|x l [Hx0 Hx1] _ (IH0 & IH1 & _)].
  - rewrite sum_list_nil. repeat split; try lra; try discriminate.
    congruence.
  - rewrite sum_list_cons, inject_Z_length_cons.
    repeat split; lra.
Qed.

Lemma mean_list_unit_bounds (l : list Q) :
  Forall (fun x => 0 < x <= 1) l -> l <> [] ->
  0 < mean_list l <= 1.
Proof.
  intros Hl Hne.
  destruct (sum_list_unit_bounds l Hl) as (_ & Hle & Hpos).
  specialize (Hpos Hne).
  assert (Hlen : 0 < inject_Z (Z.of_nat (length l))).
  { destruct l as [|x l]; [congruence|].
    rewrite inject_Z_length_cons.
    assert (0 <= inject_Z (Z.of_nat (length l))).
    { change 0 with (inject_Z 0). rewrite <- Zle_Qle. lia. }
    lra. }
  change (mean_list l)
    with (sum_list l / inject_Z (Z.of_nat (length l))).
  split.
  - apply Qlt_shift_div_l; [exact Hlen|lra].
  - apply Qle_shift_div_r; [exact Hlen|lra].
Qed.

Lemma bool_to_float_unit (b : bool) :
  0 <= bool_to_float (T := Q) b <= 1.
Proof. destruct b; split; discriminate. Qed.

Lemma class_score_bounds (y_pred y_true : tensor Q) (n h w c cc : nat) :
  (1 <= n)%nat ->
  Forall (fun x => 0 <= x <= 1) (data y_pred) ->
  0 < class_score n h w c y_pred y_true cc <= 1.
Proof.
  intros Hn Hpred. unfold class_score.
  apply mean_list_unit_bounds.
  - apply (Forall_zip_with (Forall (fun x => 0 <= x <= 1))
                           (Forall (fun x => 0 <= x <= 1))).
    + intros p t. apply overlap_score_bounds.
    + apply Forall_rows, Forall_channel_pixels, Hpred.
    + apply Forall_rows, Forall_map, Forall_forall.
      intros v _. apply bool_to_float_unit.
  - intros Hnil. apply (f_equal (@length Q)) in Hnil.
    rewrite length_zip_with, !length_rows in Hnil. simpl in Hnil. lia.
Qed.

(** X16.  For a batch of at least one sample, at least one class, and a
    prediction of shape (n, h, w, c) whose values lie between 0 and 1 (as
    the outputs of sigmoid and softmax do), [sparse_iou] is greater than 0
    and at most 1, whatever the labels are; so the loss that
    [make_train_op] minimises is at least -1 and less than 0. *)
Theorem make_train_op_loss_between_minus_1_and_0
        (y_pred y_true : tensor Q) (n h w c : nat)
        (learning_rate beta1 beta2 epsilon : Q) :
  shape y_pred = [n; h; w; c] ->
  length (data y_pred) = (n * h * w * c)%nat ->
  length (data y_true) = (n * h * w)%nat ->
  (1 <= n)%nat -> (0 < h * w)%nat -> (1 <= c)%nat ->
  Forall (fun x => 0 <= x <= 1) (data y_pred) ->
  exists (iou : Q) (op : train_op),
    sparse_iou y_pred y_true = Some iou /\
    0 < iou <= 1 /\
    make_train_op y_pred y_true learning_rate beta1 beta2 epsilon = Some op /\
    - (1) <= loss op < 0.
Proof.
  intros Hs Hpred Htrue Hn Hhw Hc Hunit.
  pose proof (sparse_iou_value y_pred y_true n h w c Hs Hpred Htrue Hhw)
    as Hiou.
  set (iou := mean_list (map (class_score n h w c y_pred y_true) (seq 0 c)))
    in Hiou.
  assert (Hbounds : 0 < iou <= 1).
  { apply mean_list_unit_bounds.
    - apply Forall_map, Forall_forall. intros cc _.
      now apply class_score_bounds.
    - intros Hnil. apply (f_equal (@length Q)) in Hnil.
      rewrite length_map, length_seq in Hnil. simpl in Hnil. lia. }
  exists iou. eexists. split; [exact Hiou|]. split; [exact Hbounds|].
  unfold make_train_op. rewrite Hiou, obind_Some_l. cbv zeta.
  split; [reflexivity|].
  cbn [loss s_neg Scalar_Q]. lra.
Qed.

(** X16, on one sample of two pixels with two classes. *)
Lemma make_train_op_loss_between_minus_1_and_0_witness :
  exists op : train_op,
    make_train_op (mk_tensor [1; 1; 2; 2]%nat [1; 0; 1 # 2; 1 # 2])
                  (mk_tensor [1; 1; 2; 1]%nat [0; 1])
                  (1 # 1000) (9 # 10) (999 # 1000) (1 # 100000000)
    = Some op /\
    - (1) <= loss op < 0.
Proof.
  destruct (make_train_op_loss_between_minus_1_and_0
              (mk_tensor [1; 1; 2; 2]%nat [1; 0; 1 # 2; 1 # 2])
              (mk_tensor [1; 1; 2; 1]%nat [0; 1]) 1 1 2 2
              (1 # 1000) (9 # 10) (999 # 1000) (1 # 100000000))
    as (iou & op & _ & _ & Hop & Hloss);
    try reflexivity; try (simpl; lia).
  - repeat constructor; discriminate.
  - exists op. split; [exact Hop|exact Hloss].
Defined.

End RationalLoss.

(** ** Shapes kept by the augmentation *)

Lemma has_shape_flip_up_down {P : Type} (coin : bool) (h w c : nat)
      (t : image_t P) :
  has_shape h w c t -> has_shape h w c (random_flip_up_down coin t).
Proof.
  intros [Hh Hrows]. destruct coin; [|now split].
  unfold random_flip_up_down, flip_up_down. split.
  - now rewrite length_rev.
  - now apply Forall_rev.
Qed.

(** X17.  When the two photometric adjustments keep the shape of an image,
    [image_augmentation] returns an image of the shape of the input image
    and a mask of the shape of the input mask, as its docstring says. *)
Theorem image_augmentation_keeps_shapes
        (P : Type) (adjust_brightness adjust_hue : image_t P -> Q -> image_t P)
        (image mask : image_t P) (d : draws) (h w c : nat) :
  (forall t delta, has_shape h w c t ->
                   has_shape h w c (adjust_brightness t delta)) ->
  (forall t delta, has_shape h w c t ->
                   has_shape h w c (adjust_hue t delta)) ->
  has_shape h w c image -> has_shape h w 1 mask ->
  exists image' mask' : image_t P,
    image_augmentation adjust_brightness adjust_hue image mask d
    = Some (image', mask') /\
    has_shape h w c image' /\ has_shape h w 1 mask'.
Proof.
  intros Hb Hh Hi Hm.
  rewrite (image_augmentation_value P adjust_brightness adjust_hue
             h w c image mask d Hi Hm).
  do 2 eexists. split; [reflexivity|]. split.
  - apply Hh, Hb. now apply has_shape_flip_up_down.
  - now apply has_shape_flip_up_down.
Qed.

(** X17, with a brightness shift and the identity for the hue. *)
Lemma image_augmentation_keeps_shapes_witness :
  let brighten := fun (t : image_t Q) (delta : Q) =>
                    map (map (map (Qplus delta))) t in
  exists image' mask' : image_t Q,
    image_augmentation brighten (fun t _ => t)
      [[[1; 2; 3]]; [[4; 5; 6]]]%Q [[[0]]; [[255]]]%Q
      {| coin_left_right := false; coin_up_down := true;
         brightness_delta := (1 # 2)%Q; hue_delta := 0%Q |}
    = Some (image', mask') /\
    has_shape 2 1 3 image' /\ has_shape 2 1 1 mask'.
Proof.
  intros brighten.
  apply (image_augmentation_keeps_shapes Q brighten (fun t _ => t)).
  - intros t delta [Hh Hrows]. unfold brighten. split.
    + now rewrite length_map.
    + clear Hh. induction Hrows as [|r t [Hw Hr] _ IH]; simpl; constructor;
        [|exact IH].
      split; [now rewrite length_map|].
      clear Hw. induction Hr as [|q r Hq _ IHr]; simpl; constructor;
        [now rewrite length_map|exact IHr].
  - intros t delta Ht. exact Ht.
  - split; [reflexivity|]. repeat constructor.
  - split; [reflexivity|]. repeat constructor.
Defined.

(** ** No checkpoint before the last epoch *)

Lemma emits_only_ret {A : Type} (allowed : event -> Prop) (a : A) :
  emits_only allowed (ret a).
Proof.
  intros en s. exists []. simpl. rewrite app_nil_r. split; constructor.
Qed.

Lemma emits_only_raise {A : Type} (allowed : event -> Prop) (e : exn) :
  emits_only allowed (@raise A e).
Proof.
  intros en s. exists []. simpl. rewrite app_nil_r. split; constructor.
Qed.

Lemma emits_only_call (allowed : event -> Prop) (ev : event) :
  allowed ev -> emits_only allowed (call ev).
Proof.
  intros Hev en s. rewrite call_value.
  exists [(ev, raises en (trace s) ev)]. split; [reflexivity|].
  now repeat constructor.
Qed.

Lemma emits_only_bind {A B : Type} (allowed : event -> Prop)
      (m : M A) (k : A -> M B) :
  emits_only allowed m -> (forall a, emits_only allowed (k a)) ->
  emits_only allowed (mbind m k).
Proof.
  intros Hm Hk en s. unfold mbind.
  destruct (Hm en s) as (new1 & Ht1 & Ha1).
  destruct (m en s) as [[e|a] s1]; simpl in Ht1.
  - exists new1. now split.
  - destruct (Hk a en s1) as (new2 & Ht2 & Ha2).
    exists (new1 ++ new2). split; [now rewrite Ht2, Ht1, app_assoc|].
    apply Forall_app. now split.
Qed.

Lemma emits_only_for_each {A : Type} (allowed : event -> Prop)
      (l : list A) (body : A -> M unit) :
  (forall a, emits_only allowed (body a)) ->
  emits_only allowed (for_each l body).
Proof.
  intros Hbody. induction l as [|a l IH]; simpl.
  - apply emits_only_ret.
  - apply emits_only_bind; [apply Hbody|intros _; exact IH].
Qed.

Lemma emits_only_py_range (allowed : event -> Prop) (start stop step : Z) :
  emits_only allowed (py_range start stop step).
Proof.
  unfold py_range. destruct (step =? 0)%Z;
    [apply emits_only_raise|apply emits_only_ret].
Qed.

Lemma emits_only_bind_locals (allowed : event -> Prop) :
  emits_only allowed bind_coord /\ emits_only allowed bind_threads.
Proof.
  split; intros en s; exists []; simpl; rewrite app_nil_r;
    split; constructor.
Qed.

Lemma epoch_loop_never_saves (flags : flags_t) (n_train n_test : nat) :
  emits_only (fun ev => ~ is_save ev) (epoch_loop flags n_train n_test).
Proof.
  unfold epoch_loop, train_steps, test_steps.
  repeat first
    [ apply emits_only_bind
    | apply emits_only_for_each
    | apply emits_only_py_range
    | apply emits_only_call; simpl; tauto
    | intro ].
Qed.

Lemma fails_unsaved_bind {A B : Type} (m : M A) (k : A -> M B) :
  emits_only (fun ev => ~ is_save ev) m ->
  (forall a, fails_unsaved (k a)) ->
  fails_unsaved (mbind m k).
Proof.
  intros Hm Hk en s. unfold mbind.
  destruct (Hm en s) as (new1 & Ht1 & Ha1).
  assert (Hnone : forall path o, ~ In (ev_save path, o) new1).
  { intros path o Hin. rewrite Forall_forall in Ha1.
    apply (Ha1 _ Hin). exact I. }
  destruct (m en s) as [[e|a] s1]; simpl in Ht1.
  - exists new1. split; [exact Ht1|]. intros e0 _ path. apply Hnone.
  - destruct (Hk a en s1) as (new2 & Ht2 & Hu2).
    exists (new1 ++ new2). split; [now rewrite Ht2, Ht1, app_assoc|].
    intros e Hres path Hin. apply in_app_or in Hin as [Hin|Hin].
    + exact (Hnone path None Hin).
    + exact (Hu2 e Hres path Hin).
Qed.

Lemma fails_unsaved_save (path : string) : fails_unsaved (call (ev_save path)).
Proof.
  intros en s. rewrite call_value.
  exists [(ev_save path, raises en (trace s) (ev_save path))].
  split; [reflexivity|].
  destruct (raises en (trace s) (ev_save path)) as [e|]; simpl.
  - intros e0 _ p [Hin|[]]. discriminate Hin.
  - intros e0 Hres. discriminate Hres.
Qed.

(** X18.  The [try] block writes its checkpoint only as its very last
    call, after all epochs: whenever the block ends with an exception -
    in any epoch, at any step - no save has returned in it.  Together with
    a [finally] clause whose save is not reached, such a run leaves no
    checkpoint of the training done so far. *)
Theorem try_body_saves_only_at_the_end
        (flags : flags_t) (n_train n_test : nat) (en : env) (s : state)
        (e : exn) :
  fst (try_body flags n_train n_test en s) = inl e ->
  exists new : trace_t,
    trace (snd (try_body flags n_train n_test en s)) = trace s ++ new /\
    forall path : string, ~ In (ev_save path, None) new.
Proof.
  intros Hres.
  assert (Hbody : fails_unsaved (try_body flags n_train n_test)).
  { unfold try_body.
    repeat first
      [ apply fails_unsaved_save
      | apply fails_unsaved_bind;
        [ first [ apply emits_only_call; simpl; tauto
                | apply (proj1 (emits_only_bind_locals _))
                | apply (proj2 (emits_only_bind_locals _))
                | apply epoch_loop_never_saves ]
        | intro ] ]. }
  destruct (Hbody en s) as (new & Htrace & Hunsaved).
  exists new. split; [exact Htrace|]. exact (Hunsaved e Hres).
Qed.

(** X18, when the first dequeue of a training batch raises. *)
Lemma try_body_saves_only_at_the_end_witness :
  exists new : trace_t,
    trace_of (try_body default_flags 2 2) env_missing_image = new /\
    ~ In (ev_save (checkpoint_path default_flags), None) new.
Proof.
  destruct (try_body_saves_only_at_the_end default_flags 2 2
              env_missing_image initial_state OpError eq_refl)
    as (new & Htrace & Hunsaved).
  exists new. split; [exact Htrace|apply Hunsaved].
Defined.

(** ** Predictions of too low a rank *)

(** X19.  [IOU_] unpacks the second and third dimension of the
    prediction, so a prediction of rank less than three is an error; and
    [sparse_iou] indexes the fourth dimension, so a prediction of rank less
    than four with at least one channel is an error, as is a scalar. *)
Theorem overlap_functions_reject_low_rank
        {T : Type} `{Scalar T} {E : Type} (to_float : E -> T)
        (y_pred : tensor T) (y_true : tensor E) (labels : tensor T) :
  (length (shape y_pred) < 3 -> IOU_ to_float y_pred y_true = None) /\
  (length (shape y_pred) < 4 ->
   shape y_pred = [] \/ 1 <= last (shape y_pred) 0 ->
   sparse_iou y_pred labels = None).
Proof.
  split.
  - intros Hrank. unfold IOU_.
    destruct (shape y_pred) as [|a [|b [|c rest]]]; simpl in *;
      try reflexivity; lia.
  - intros Hrank Hlast. unfold sparse_iou, slice_channel.
    destruct (shape y_pred) as [|a [|b [|c [|d rest]]]]; simpl in *;
      try reflexivity; try lia.
    + destruct Hlast as [Hnil|Hlast]; [discriminate|].
      destruct a as [|a]; [lia|]. reflexivity.
    + destruct Hlast as [Hnil|Hlast]; [discriminate|].
      destruct b as [|b]; [lia|]. reflexivity.
    + destruct Hlast as [Hnil|Hlast]; [discriminate|].
      destruct c as [|c]; [lia|]. reflexivity.
Qed.

(** X19, on a prediction without a channel axis. *)
Lemma overlap_functions_reject_low_rank_witness :
  sparse_iou (mk_tensor [1; 1; 2] [1; 0]%Q) (mk_tensor [1; 1; 2; 1] [0; 1]%Q)
  = None.
Proof.
  destruct (overlap_functions_reject_low_rank (fun x : Q => x)
              (mk_tensor [1; 1; 2] [1; 0]%Q)
              (mk_tensor [1; 1; 2; 1] [0; 1]%Q)
              (mk_tensor [1; 1; 2; 1] [0; 1]%Q)) as [_ Hsparse].
  apply Hsparse; simpl; [lia|right; lia].
Defined.
